(** * Blackjack round engine: a shallow embedding of [blackjack_engine.py]

    The development follows the Python module top to bottom: configuration
    constants, shoe, hand evaluation, the two dataclasses, the dealer loop,
    the four player actions, settlement and [play_round].

    Modelling conventions.
    - Cards are Python [int]s, hence [Z]; a shoe or a hand is a [list Z].
      [list.pop()] takes the LAST element, so the top of the shoe is the end
      of the list.
    - Bets and results are Python [float]s, hence the binary64 numbers of
      [PrimFloat].
    - [RuntimeError] raised by [draw_card] and [IndexError] raised by a list
      subscript are values of [error]; a function that may raise returns an
      [outcome].
    - Functions that mutate their arguments return the new values.
    - The [while] loops are recursive functions on a fuel counter that the
      caller sets from the size of the shoe; [OutOfFuel] is the model's own
      marker and is proved unreachable.

    After the engine come the functions around it: the table policy of the
    simulation scripts and the hand features and fallback of the training
    scripts and of the command line. *)

From Stdlib Require Import ZArith PrimFloat Ascii String.
From stdpp Require Import base option list strings pretty gmap.

Local Open Scope Z_scope.

(** ** Errors *)

Inductive error : Type :=
  | ShoeEmpty    (* RuntimeError("Shoe is empty. ...") *)
  | IndexError   (* a list subscript out of range *)
  | OutOfFuel.   (* not a Python error: the fuel of a loop ran out *)

Inductive outcome (A : Type) : Type :=
  | Ok (a : A)
  | Raise (e : error).
Arguments Ok {A} a.
Arguments Raise {A} e.

#[global] Instance outcome_ret : MRet outcome := fun _ a => Ok a.
#[global] Instance outcome_bind : MBind outcome := fun _ _ f m =>
  match m with
  | Ok a => f a
  | Raise e => Raise e
  end.

(** ** Config *)

Definition BLACKJACK_PAYOUT : float := 1.5%float.
Definition DEALER_HITS_SOFT_17 : bool := false.
Definition MAX_SPLITS : nat := 3.

(** ** Card & shoe utilities *)

Definition draw_card (shoe : list Z) : outcome (Z * list Z) :=
  match shoe with
  | [] => Raise ShoeEmpty
  | _ :: _ => Ok (List.last shoe 0, removelast shoe)
  end.

(** ** Hand evaluation *)

Definition sum (hand : list Z) : Z := foldr Z.add 0 hand.

Definition count (x : Z) (hand : list Z) : nat :=
  length (List.filter (Z.eqb x) hand).

(** The loop [while total > 21 and aces_as_11 > 0]. *)
Fixpoint downgrade (total : Z) (aces_as_11 : nat) : Z * nat :=
  match aces_as_11 with
  | O => (total, O)
  | S k => if 21 <? total then downgrade (total - 10) k else (total, aces_as_11)
  end.

Definition hand_value (hand : list Z) : Z * bool :=
  let total := sum hand in
  let aces := count 11 hand in
  let '(total, aces_as_11) := downgrade total aces in
  (total, Nat.ltb 0 aces_as_11 && (total <=? 21)).

Definition is_blackjack (hand : list Z) : bool :=
  if negb (Nat.eqb (length hand) 2) then false
  else fst (hand_value hand) =? 21.

Definition can_split (hand : list Z) : bool :=
  match hand with
  | [a; b] => a =? b
  | _ => false
  end.

(** ** Data structures *)

(** [is_blackjack_flag] is the field [is_blackjack] (the name is taken by the
    function above); [meta] is the dictionary, of which only the key
    ["from_split"] is ever written or read. *)
Record HandState : Type := mkHandState {
  cards : list Z;
  bet : float;
  is_finished : bool;
  is_busted : bool;
  is_blackjack_flag : bool;
  is_split_ace : bool;
  result : option float;
  meta : gmap string bool
}.

(** The context dictionary handed to the policy. *)
Record Ctx : Type := mkCtx {
  player_total : Z;
  player_soft : bool;
  ctx_can_split : bool;
  ctx_can_double : bool;
  ctx_hand_index : nat;
  num_hands : nat
}.

(** One entry of [logs["steps"]]. *)
Record Step : Type := mkStep {
  step_hand_index : nat;
  step_cards : list Z;
  step_dealer_up : Z;
  step_action : string;
  step_ctx : Ctx
}.

(** [logs] is [None] for the empty dictionary and [Some steps] for
    [{"steps": steps}]. *)
Record RoundState : Type := mkRoundState {
  shoe : list Z;
  player_hands : list HandState;
  dealer_cards : list Z;
  initial_blackjack : bool;
  logs : option (list Step)
}.

Definition set_cards (h : HandState) (c : list Z) : HandState :=
  mkHandState c (bet h) (is_finished h) (is_busted h) (is_blackjack_flag h)
    (is_split_ace h) (result h) (meta h).
Definition set_bet (h : HandState) (b : float) : HandState :=
  mkHandState (cards h) b (is_finished h) (is_busted h) (is_blackjack_flag h)
    (is_split_ace h) (result h) (meta h).
Definition set_finished (h : HandState) (b : bool) : HandState :=
  mkHandState (cards h) (bet h) b (is_busted h) (is_blackjack_flag h)
    (is_split_ace h) (result h) (meta h).
Definition set_busted (h : HandState) (b : bool) : HandState :=
  mkHandState (cards h) (bet h) (is_finished h) b (is_blackjack_flag h)
    (is_split_ace h) (result h) (meta h).
Definition set_blackjack (h : HandState) (b : bool) : HandState :=
  mkHandState (cards h) (bet h) (is_finished h) (is_busted h) b
    (is_split_ace h) (result h) (meta h).
Definition set_split_ace (h : HandState) (b : bool) : HandState :=
  mkHandState (cards h) (bet h) (is_finished h) (is_busted h)
    (is_blackjack_flag h) b (result h) (meta h).
Definition set_result (h : HandState) (r : option float) : HandState :=
  mkHandState (cards h) (bet h) (is_finished h) (is_busted h)
    (is_blackjack_flag h) (is_split_ace h) r (meta h).
Definition set_meta (h : HandState) (m : gmap string bool) : HandState :=
  mkHandState (cards h) (bet h) (is_finished h) (is_busted h)
    (is_blackjack_flag h) (is_split_ace h) (result h) m.

Definition set_shoe (st : RoundState) (s : list Z) : RoundState :=
  mkRoundState s (player_hands st) (dealer_cards st) (initial_blackjack st)
    (logs st).
Definition set_player_hands (st : RoundState) (hs : list HandState)
  : RoundState :=
  mkRoundState (shoe st) hs (dealer_cards st) (initial_blackjack st) (logs st).
Definition set_dealer_cards (st : RoundState) (d : list Z) : RoundState :=
  mkRoundState (shoe st) (player_hands st) d (initial_blackjack st) (logs st).
Definition set_logs (st : RoundState) (l : option (list Step)) : RoundState :=
  mkRoundState (shoe st) (player_hands st) (dealer_cards st)
    (initial_blackjack st) l.

(** ** Dealer play *)

(** [play_dealer] reads the module constant [DEALER_HITS_SOFT_17]; the loop
    takes it as an argument so that both table rules can be stated. *)
Fixpoint play_dealer_loop (fuel : nat) (hits_soft_17 : bool)
    (shoe : list Z) (dealer_cards : list Z) : outcome (list Z * list Z) :=
  match fuel with
  | O => Raise OutOfFuel
  | S fuel' =>
    let '(total, is_soft) := hand_value dealer_cards in
    let hit :=
      '(c, shoe') ← draw_card shoe;
      play_dealer_loop fuel' hits_soft_17 shoe' (dealer_cards ++ [c]) in
    if 21 <? total then Ok (shoe, dealer_cards)
    else if negb hits_soft_17 then
      if 17 <=? total then Ok (shoe, dealer_cards) else hit
    else
      if 17 <? total then Ok (shoe, dealer_cards)
      else if (total =? 17) && negb is_soft then Ok (shoe, dealer_cards)
      else hit
  end.

(** Every iteration that does not leave the loop draws a card, so one more
    iteration than there are cards is enough. *)
Definition play_dealer_with (hits_soft_17 : bool) (shoe dealer_cards : list Z)
  : outcome (list Z * list Z) :=
  play_dealer_loop (S (length shoe)) hits_soft_17 shoe dealer_cards.

Definition play_dealer (shoe dealer_cards : list Z)
  : outcome (list Z * list Z) :=
  play_dealer_with DEALER_HITS_SOFT_17 shoe dealer_cards.

(** ** Round logic *)

Definition apply_action_hit (shoe : list Z) (hand : HandState)
  : outcome (list Z * HandState) :=
  '(c, shoe') ← draw_card shoe;
  let hand := set_cards hand (cards hand ++ [c]) in
  let '(total, _) := hand_value (cards hand) in
  if 21 <? total
  then Ok (shoe', set_finished (set_busted hand true) true)
  else Ok (shoe', hand).

Definition apply_action_stand (hand : HandState) : HandState :=
  set_finished hand true.

Definition apply_action_double (shoe : list Z) (hand : HandState)
  : outcome (list Z * HandState) :=
  if negb (Nat.eqb (length (cards hand)) 2) then
    (* treat as hit if invalid double *)
    apply_action_hit shoe hand
  else
    let hand := set_bet hand (bet hand * 2)%float in
    '(c, shoe') ← draw_card shoe;
    let hand := set_cards hand (cards hand ++ [c]) in
    let '(total, _) := hand_value (cards hand) in
    let hand := if 21 <? total then set_busted hand true else hand in
    Ok (shoe', set_finished hand true).

(** [h.meta.get("from_split", False)] *)
Definition from_split (h : HandState) : bool :=
  default false (meta h !! "from_split"%string).

(** [sum(1 for h in round_state.player_hands if ...)] *)
Definition existing_splits (hands : list HandState) : nat :=
  length (List.filter from_split hands).

(** [list.insert(i, x)] for [0 <= i]: the element lands before position [i],
    or at the end when the list is shorter. *)
Definition list_insert_at {A : Type} (i : nat) (x : A) (l : list A) : list A :=
  take i l ++ x :: drop i l.

(** [hand] is the object stored at [player_hands[hand_index]]: what the
    function writes to it is written back at that index. The shoe is passed
    on its own, as in the source; the field [shoe] of [round_state] is left
    to the caller, for whom it is the same list. When the split is refused
    the function returns without any effect. *)
Definition apply_action_split (shoe : list Z) (round_state : RoundState)
    (hand_index : nat) : outcome (list Z * RoundState) :=
  match player_hands round_state !! hand_index with
  | None => Raise IndexError
  | Some hand =>
    if negb (can_split (cards hand)) then Ok (shoe, round_state)
    else if Nat.leb MAX_SPLITS (existing_splits (player_hands round_state))
    then Ok (shoe, round_state)
    else
      let card := List.hd 0 (cards hand) in
      (* new hand 1 *)
      '(c1, shoe) ← draw_card shoe;
      let hand := set_cards hand [card; c1] in
      let hand := set_blackjack hand (is_blackjack (cards hand)) in
      let hand := set_meta hand (<["from_split"%string := true]> (meta hand)) in
      (* new hand 2 *)
      '(c2, shoe) ← draw_card shoe;
      let new_hand_cards := [card; c2] in
      let new_hand :=
        mkHandState new_hand_cards (bet hand) false false
          (is_blackjack new_hand_cards) false None
          {["from_split"%string := true]} in
      (* A,A split rule *)
      let '(hand, new_hand) :=
        if card =? 11
        then (set_finished (set_split_ace hand true) true,
              set_finished (set_split_ace new_hand true) true)
        else (hand, new_hand) in
      let hands := <[hand_index := hand]> (player_hands round_state) in
      Ok (shoe,
          set_player_hands round_state
            (list_insert_at (hand_index + 1) new_hand hands))
  end.

(** Returns the profit together with the hand, whose [result] it sets. *)
Definition settle_hand_vs_dealer (hand : HandState) (dealer_cards : list Z)
  : float * HandState :=
  match result hand with
  | Some r => (r, hand)  (* already settled *)
  | None =>
    if is_busted hand then
      let r := (- bet hand)%float in (r, set_result hand (Some r))
    else
      let '(player_total, _) := hand_value (cards hand) in
      let '(dealer_total, _) := hand_value dealer_cards in
      (* dealer bust *)
      if 21 <? dealer_total then
        let r := bet hand in (r, set_result hand (Some r))
      (* player blackjack *)
      else if is_blackjack_flag hand
              && negb (Nat.eqb (length dealer_cards) 2 && (dealer_total =? 21))
      then
        let r := (bet hand * BLACKJACK_PAYOUT)%float in
        (r, set_result hand (Some r))
      else if player_total <? dealer_total then
        let r := (- bet hand)%float in (r, set_result hand (Some r))
      else if dealer_total <? player_total then
        let r := bet hand in (r, set_result hand (Some r))
      else
        let r := 0%float in (r, set_result hand (Some r))
  end.

(** ** Main round simulation API *)

(** A policy is called with a copy of the cards, the dealer's upcard and the
    context, and answers with an action string. It may keep a state of its
    own (type [PS]), which the engine only passes along: the state after the
    round tells how the policy was called. *)
Definition PolicyFunc (PS : Type) : Type :=
  PS → list Z → Z → Ctx → string * PS.

(** [str.upper()] on the ASCII letters; no other character is mapped to one of
    ["H"], ["D"], ["P"] or ["R"]. *)
Definition upper_ascii (c : ascii) : ascii :=
  let n := nat_of_ascii c in
  if (Nat.leb 97 n && Nat.leb n 122)%bool then ascii_of_nat (n - 32) else c.

Fixpoint upper (s : string) : string :=
  match s with
  | EmptyString => EmptyString
  | String c s' => String (upper_ascii c) (upper s')
  end.

(** [state.logs["steps"].append(...)], done only [if log]. *)
Definition log_step (log : bool) (st : RoundState) (e : Step) : RoundState :=
  if log then set_logs st ((λ steps, steps ++ [e]) <$> logs st) else st.

(** The hand [hand] of the source is the object at index [hand_index] of
    [state.player_hands]; the model reads it through that index and writes
    every change back there. *)
Definition set_hand (st : RoundState) (i : nat) (h : HandState) : RoundState :=
  set_player_hands st (<[i := h]> (player_hands st)).

Section Round.
Context {PS : Type} (policy : PolicyFunc PS) (log : bool) (dealer_up : Z).

(** The loop [while not hand.is_finished] for the hand at [hand_index].
    The result is the state on leaving the loop, by its condition or by
    [break]. *)
Fixpoint hand_loop (fuel : nat) (hand_index : nat) (st : RoundState)
    (ps : PS) : outcome (RoundState * PS) :=
  match fuel with
  | O => Raise OutOfFuel
  | S fuel' =>
    match player_hands st !! hand_index with
    | None => Raise IndexError
    | Some hand =>
      if is_finished hand then Ok (st, ps)
      else
        let '(total, is_soft) := hand_value (cards hand) in
        (* if busted already *)
        if 21 <? total then
          Ok (set_hand st hand_index
                (set_finished (set_busted hand true) true), ps)
        else
          let ctx :=
            mkCtx total is_soft (can_split (cards hand))
              (Nat.eqb (length (cards hand)) 2) hand_index
              (length (player_hands st)) in
          let '(answer, ps) := policy ps (cards hand) dealer_up ctx in
          let action := upper answer in
          let st :=
            log_step log st
              (mkStep hand_index (cards hand) dealer_up action ctx) in
          let hit :=
            '(shoe', hand') ← apply_action_hit (shoe st) hand;
            hand_loop fuel' hand_index
              (set_hand (set_shoe st shoe') hand_index hand') ps in
          let stand :=
            hand_loop fuel' hand_index
              (set_hand st hand_index (apply_action_stand hand)) ps in
          if String.eqb action "H" then
            (* cannot hit split aces in standard rules *)
            if is_split_ace hand then
              hand_loop fuel' hand_index
                (set_hand st hand_index (set_finished hand true)) ps
            else hit
          else if String.eqb action "S" then stand
          else if String.eqb action "D" then
            if Nat.eqb (length (cards hand)) 2 then
              '(shoe', hand') ← apply_action_double (shoe st) hand;
              hand_loop fuel' hand_index
                (set_hand (set_shoe st shoe') hand_index hand') ps
            else hit (* treat invalid double as hit *)
          else if String.eqb action "P" then
            if can_split (cards hand) then
              '(shoe', st') ← apply_action_split (shoe st) st hand_index;
              (* break *)
              Ok (set_shoe st' shoe', ps)
            else hit (* invalid split -> treat as hit *)
          else if String.eqb action "R" then stand
          else stand (* unknown action -> stand as safe fallback *)
    end
  end.

(** An iteration of [hand_loop] that goes round again has drawn a card, or
    has finished the hand and stops at the next test. *)
Definition hand_fuel (st : RoundState) : nat := length (shoe st) + 2.

(** The loop [while hand_index < len(state.player_hands)]. *)
Fixpoint hands_loop (fuel : nat) (hand_index : nat) (st : RoundState)
    (ps : PS) : outcome (RoundState * PS) :=
  match fuel with
  | O => Raise OutOfFuel
  | S fuel' =>
    if Nat.ltb hand_index (length (player_hands st)) then
      match player_hands st !! hand_index with
      | None => Raise IndexError
      | Some hand =>
        (* if already finished (e.g. split Aces) *)
        if is_finished hand then hands_loop fuel' (hand_index + 1) st ps
        else
          '(st, ps) ← hand_loop (hand_fuel st) hand_index st ps;
          (* hand_index += 1: reached from the end of the inner loop and
             from its break alike *)
          hands_loop fuel' (hand_index + 1) st ps
      end
    else Ok (st, ps)
  end.
End Round.

(** The hand list grows by one hand only when a split draws two cards, and
    the index advances on every iteration. *)
Definition hands_fuel (st : RoundState) : nat :=
  length (shoe st) + length (player_hands st) + 1.

(** [for hand in state.player_hands: settle_hand_vs_dealer(...)] *)
Definition settle_all (st : RoundState) : RoundState :=
  set_player_hands st
    ((λ hand, snd (settle_hand_vs_dealer hand (dealer_cards st)))
       <$> player_hands st).

(** [if any(not h.is_busted ...): play_dealer(shoe, state.dealer_cards)];
    the dealer's cards are extended in place. *)
Definition dealer_phase (state : RoundState) : outcome RoundState :=
  if existsb (λ h, negb (is_busted h)) (player_hands state) then
    '(shoe', dealer') ← play_dealer (shoe state) (dealer_cards state);
    Ok (set_dealer_cards (set_shoe state shoe') dealer')
  else Ok state.

Definition play_round {PS : Type} (shoe : list Z) (policy : PolicyFunc PS)
    (ps : PS) (base_bet : float) (log : bool) : outcome (RoundState * PS) :=
  (* initial deal *)
  '(p1, shoe) ← draw_card shoe;
  '(p2, shoe) ← draw_card shoe;
  '(d1, shoe) ← draw_card shoe;
  '(d2, shoe) ← draw_card shoe;
  let player_cards := [p1; p2] in
  let dealer_cards := [d1; d2] in
  let player_hand :=
    mkHandState player_cards base_bet false false (is_blackjack player_cards)
      false None ∅ in
  let state :=
    mkRoundState shoe [player_hand] dealer_cards
      (is_blackjack_flag player_hand) (if log then Some [] else None) in
  let dealer_up := d1 in
  (* Check for immediate blackjack outcomes *)
  let dealer_has_bj := is_blackjack dealer_cards in
  if is_blackjack_flag player_hand || dealer_has_bj then
    let r :=
      if is_blackjack_flag player_hand && negb dealer_has_bj
      then (base_bet * BLACKJACK_PAYOUT)%float
      else if dealer_has_bj && negb (is_blackjack_flag player_hand)
      then (- base_bet)%float
      else 0%float in
    Ok (set_hand state 0 (set_result player_hand (Some r)), ps)
  else
    (* Player actions (possibly multiple hands due to splits) *)
    '(state, ps) ← hands_loop policy log dealer_up (hands_fuel state) 0 state ps;
    (* Dealer plays if at least one hand not busted *)
    state ← dealer_phase state;
    (* Settle all hands *)
    Ok (settle_all state, ps).

(** * Definitions used to state the properties *)

(** ** Settlement and dealer rules *)

(** The rule of settlement in the order the specification gives it. *)
Definition settlement_rule (hand : HandState) (dealer_cards : list Z) : float :=
  let player_total := fst (hand_value (cards hand)) in
  let dealer_total := fst (hand_value dealer_cards) in
  let dealer_two_card_21 :=
    bool_decide (length dealer_cards = 2%nat ∧ dealer_total = 21) in
  if is_busted hand then (- bet hand)%float
  else if bool_decide (dealer_total > 21) then bet hand
  else if is_blackjack_flag hand && negb dealer_two_card_21
  then (bet hand * 1.5)%float
  else if bool_decide (player_total > dealer_total) then bet hand
  else if bool_decide (player_total < dealer_total) then (- bet hand)%float
  else 0%float.

(** The table rule in the words of the specification: the dealer stops on a
    bust; under S17 he stands on every total of 17 or more; under H17 he
    stands on every total above 17 and on a hard 17 or more. *)
Definition dealer_stands (hits_soft_17 : bool) (dealer_cards : list Z) : bool :=
  let '(total, is_soft) := hand_value dealer_cards in
  bool_decide (total > 21)
  || (if hits_soft_17
      then bool_decide (total > 17) || (bool_decide (17 ≤ total) && negb is_soft)
      else bool_decide (17 ≤ total)).

(** What a run of the dealer that drew the cards [drawn] looks like: they
    came off the end of the shoe one after the other, the dealer stands on
    the final hand and did not stand on any hand before it. *)
Definition dealer_run (h17 : bool) (shoe dealer_cards shoe' dealer_cards' : list Z)
  : Prop :=
  ∃ drawn : list Z,
    shoe = shoe' ++ rev drawn
    ∧ dealer_cards' = dealer_cards ++ drawn
    ∧ dealer_stands h17 dealer_cards' = true
    ∧ ∀ n : nat, (n < length drawn)%nat →
        dealer_stands h17 (dealer_cards ++ take n drawn) = false.

(** ** The action loop as a step relation on the hand list *)

(** The two hands that a split of [hand] makes with the cards [c1], [c2]. *)
Definition split_first (hand : HandState) (c1 : Z) : HandState :=
  let card := List.hd 0 (cards hand) in
  mkHandState [card; c1] (bet hand)
    (if card =? 11 then true else is_finished hand) (is_busted hand)
    (is_blackjack [card; c1])
    (if card =? 11 then true else is_split_ace hand) (result hand)
    (<["from_split"%string := true]> (meta hand)).

Definition split_second (hand : HandState) (c2 : Z) : HandState :=
  let card := List.hd 0 (cards hand) in
  mkHandState [card; c2] (bet hand) (card =? 11) false
    (is_blackjack [card; c2]) (card =? 11) None
    {["from_split"%string := true]}.

(** What one iteration of the inner loop can do to the hand it acts on. *)
Inductive hand_action (h : HandState) : HandState → Prop :=
  | act_bust : hand_action h (set_finished (set_busted h true) true)
  | act_finish : hand_action h (set_finished h true)
  | act_hit (shoe shoe' : list Z) (h' : HandState) :
      apply_action_hit shoe h = Ok (shoe', h') → hand_action h h'
  | act_double (shoe shoe' : list Z) (h' : HandState) :
      length (cards h) = 2%nat →
      apply_action_double shoe h = Ok (shoe', h') → hand_action h h'.

(** What it can do to the list of hands: act on an unfinished hand in place,
    or split it in two. *)
Inductive round_step : list HandState → list HandState → Prop :=
  | step_act (hands : list HandState) (i : nat) (h h' : HandState) :
      hands !! i = Some h → is_finished h = false → hand_action h h' →
      round_step hands (<[i := h']> hands)
  | step_split (hands : list HandState) (i : nat) (h : HandState) (c1 c2 : Z) :
      hands !! i = Some h → is_finished h = false →
      can_split (cards h) = true →
      (existing_splits hands < MAX_SPLITS)%nat →
      round_step hands
        (take i hands ++ [split_first h c1; split_second h c2]
         ++ drop (S i) hands).

(** What a loop of the round leaves behind: on success the hand list was
    reached by steps of [round_step], no hand was lost, every new hand cost
    at least one card, and the dealer's cards were not touched; the only
    failure is the empty shoe. *)
Definition loop_post {PS : Type} (st : RoundState)
    (r : outcome (RoundState * PS)) : Prop :=
  match r with
  | Ok (st', _) =>
    rtc round_step (player_hands st) (player_hands st')
    ∧ (length (player_hands st) ≤ length (player_hands st'))%nat
    ∧ (length (shoe st') + length (player_hands st')
       ≤ length (shoe st) + length (player_hands st))%nat
    ∧ dealer_cards st' = dealer_cards st
  | Raise e => e = ShoeEmpty
  end.

(** The hand that [play_round] deals. *)
Definition initial_hand (p1 p2 : Z) (base_bet : float) : HandState :=
  mkHandState [p1; p2] base_bet false false (is_blackjack [p1; p2]) false
    None ∅.

(** Two hands that differ at most in their result. *)
Definition same_but_result (h h' : HandState) : Prop :=
  ∃ r, h' = set_result h r.

(** A hand carries the base bet, or twice the base bet once it is finished. *)
Definition bet_inv (b : float) (h : HandState) : Prop :=
  bet h = b ∨ (bet h = (b * 2)%float ∧ is_finished h = true).

(** ** Policies and rounds used as examples *)

(** Example policies count their calls in their state. *)
Definition hit_policy : PolicyFunc nat := λ n _ _ _, ("H"%string, S n).

Definition double_policy : PolicyFunc nat := λ n _ _ _, ("D"%string, S n).

(** Splits a pair, stands otherwise; answers in lower case. *)
Definition split_else_stand : PolicyFunc nat :=
  λ n _ _ ctx, ((if ctx_can_split ctx then "p" else "s")%string, S n).

Definition split_policy : PolicyFunc nat := λ n _ _ _, ("P"%string, S n).

Definition ace_pair_round : RoundState :=
  mkRoundState [4; 5; 10]
    [mkHandState [11; 11] 1%float false false false false None ∅]
    [10; 7] false None.

Definition ten_pair : HandState :=
  mkHandState [10; 10] 1%float false false false false None ∅.

Definition ten_pair_round : RoundState :=
  mkRoundState [11; 11] [ten_pair] [10; 6] false None.

(** What is read off a round: per hand its cards, whether it is finished and
    its result; the steps logged, as hand index and cards; the cards left in
    the shoe; the number of policy calls. *)
Definition view (r : outcome (RoundState * nat))
  : option (list (list Z * bool * option float)
            * list (nat * list Z) * list Z * nat) :=
  match r with
  | Ok (st, n) =>
    Some ((λ h, (cards h, is_finished h, result h)) <$> player_hands st,
          (λ s, (step_hand_index s, step_cards s)) <$> default [] (logs st),
          shoe st, n)
  | Raise _ => None
  end.

(** * Further code of the repository *)

(** ** Building the shoe ([create_shoe]) *)

Definition DEFAULT_NUM_DECKS : Z := 6.

(** The loop [for _ in range(4)] that fills [deck]. *)
Fixpoint extend_deck (n : nat) (deck : list Z) : list Z :=
  match n with
  | O => deck
  | S k =>
    extend_deck k (deck ++ [2; 3; 4; 5; 6; 7; 8; 9] ++ replicate 4 10 ++ [11])
  end.

(** [l * n] on a list: [n] copies, none for [n <= 0]. *)
Definition list_mul {A : Type} (l : list A) (n : Z) : list A :=
  concat (replicate (Z.to_nat n) l).

(** [random.shuffle] is the argument [shuffle]: what it does to the list it
    is given. *)
Definition create_shoe (shuffle : list Z → list Z) (num_decks : Z) : list Z :=
  let deck := extend_deck 4 [] in
  let shoe := list_mul deck num_decks in
  shuffle shoe.

(** ** The rounds of [play_round], step by step *)

(** The cards of all hands, and all the cards of a round: what is left of
    the shoe, the hands and the dealer's cards. *)
Definition cards_of (hands : list HandState) : list Z :=
  concat (cards <$> hands).

Definition cards_in_play (st : RoundState) : list Z :=
  shoe st ++ cards_of (player_hands st) ++ dealer_cards st.

(** The state after the deal. *)
Definition dealt_state (rest : list Z) (p1 p2 d1 d2 : Z) (base_bet : float)
    (log : bool) : RoundState :=
  mkRoundState rest [initial_hand p1 p2 base_bet] [d1; d2]
    (is_blackjack [p1; p2]) (if log then Some [] else None).

(** The step that the loop logs when it asks the policy about the hand [h]
    at index [i] and is answered [action]. *)
Definition step_for (dealer_up : Z) (st : RoundState) (i : nat)
    (h : HandState) (action : string) : Step :=
  mkStep i (cards h) dealer_up action
    (mkCtx (fst (hand_value (cards h))) (snd (hand_value (cards h)))
       (can_split (cards h)) (Nat.eqb (length (cards h)) 2) i
       (length (player_hands st))).

(** One change of state in the action loop, with the test that led to it:
    a step logged for a hand of 21 or less; a hand found above 21; a hand
    finished by Stand (or by Hit on split Aces); a Hit; a Double on two
    cards; a Split asked of a pair (carried out or refused). *)
Inductive state_step (dealer_up : Z) : RoundState → RoundState → Prop :=
  | ss_log (st : RoundState) (i : nat) (h : HandState) (answer : string) :
      player_hands st !! i = Some h → is_finished h = false →
      fst (hand_value (cards h)) ≤ 21 →
      state_step dealer_up st
        (set_logs st
           ((λ steps, steps ++ [step_for dealer_up st i h (upper answer)])
              <$> logs st))
  | ss_bust (st : RoundState) (i : nat) (h : HandState) :
      player_hands st !! i = Some h → is_finished h = false →
      21 < fst (hand_value (cards h)) →
      state_step dealer_up st
        (set_hand st i (set_finished (set_busted h true) true))
  | ss_finish (st : RoundState) (i : nat) (h : HandState) :
      player_hands st !! i = Some h → is_finished h = false →
      state_step dealer_up st (set_hand st i (set_finished h true))
  | ss_hit (st : RoundState) (i : nat) (h : HandState) (shoe' : list Z)
      (h' : HandState) :
      player_hands st !! i = Some h → is_finished h = false →
      apply_action_hit (shoe st) h = Ok (shoe', h') →
      state_step dealer_up st (set_hand (set_shoe st shoe') i h')
  | ss_double (st : RoundState) (i : nat) (h : HandState) (shoe' : list Z)
      (h' : HandState) :
      player_hands st !! i = Some h → is_finished h = false →
      length (cards h) = 2%nat →
      apply_action_double (shoe st) h = Ok (shoe', h') →
      state_step dealer_up st (set_hand (set_shoe st shoe') i h')
  | ss_split (st : RoundState) (i : nat) (h : HandState) (shoe' : list Z)
      (st' : RoundState) :
      player_hands st !! i = Some h → is_finished h = false →
      can_split (cards h) = true →
      apply_action_split (shoe st) st i = Ok (shoe', st') →
      state_step dealer_up st (set_shoe st' shoe').

(** What holds of every hand while the action loop runs, for the base bet
    [b]: no result yet; at least two cards; a busted hand is finished and
    above 21; a split-ace hand is finished with its two cards; the bet is the
    base bet, or twice the base bet on a finished hand of three cards. *)
Definition hand_inv (b : float) (h : HandState) : Prop :=
  result h = None
  ∧ (2 ≤ length (cards h))%nat
  ∧ (is_busted h = true →
     is_finished h = true ∧ 21 < fst (hand_value (cards h)))
  ∧ (is_split_ace h = true →
     is_finished h = true ∧ length (cards h) = 2%nat
     ∧ List.hd 0 (cards h) = 11)
  ∧ (bet h = b
     ∨ (bet h = (b * 2)%float ∧ is_finished h = true
        ∧ length (cards h) = 3%nat)).

(** The marks of the hands: one hand that is not marked, or two or three
    hands that are all marked as split. *)
Definition split_marks (hands : list HandState) : Prop :=
  (∃ h, hands = [h] ∧ from_split h = false)
  ∨ (Forall (λ h, from_split h = true) hands
     ∧ (2 ≤ length hands ≤ 3)%nat).

(** A round used as an example: 5, 6 against 10, 7, doubled with a 9. *)
Definition doubled_round : RoundState :=
  mkRoundState []
    [mkHandState [5; 6; 9] 2%float true false false false (Some 2%float) ∅]
    [10; 7] false None.

(** A hand above 21 is marked busted, unless it still holds the two cards
    it was dealt or split to. *)
Definition over21_inv (h : HandState) : Prop :=
  21 < fst (hand_value (cards h)) →
  is_busted h = true ∨ length (cards h) = 2%nat.



(** The state without its log. *)
Definition erase_logs (st : RoundState) : RoundState := set_logs st None.

(** ** The table policy of the simulations ([policy_from_tables]) *)

(** An entry of a policy table, the JSON object
    [{"action": ..., "expected_reward": ...}]. *)
Record PolicyEntry : Type := mkPolicyEntry {
  action : string;
  expected_reward : float
}.

(** The keys [f"{int(a)}_{int(b)}"] and [f"{int(a)}_{int(bool(s))}_{int(b)}"];
    [pretty] writes an integer in decimal, as [str] does. *)
Definition split_key (pair_rank dealer_up : Z) : string :=
  pretty pair_rank +:+ "_" +:+ pretty dealer_up.

Definition normal_key (total : Z) (soft : bool) (dealer_up : Z) : string :=
  pretty total +:+ "_" +:+ pretty (Z.b2z soft) +:+ "_" +:+ pretty dealer_up.

(** [policy_from_tables] of [simulate_with_learned_policy.py] (the same
    function stands in [simulate_with_plot.py] and in
    [analyze_policy_weakspots.py]). The two tables are the module's
    [NORMAL_POLICY] and [SPLIT_POLICY], read from JSON files; here they are
    arguments. [player_cards[0]] raises on an empty list. *)
Definition policy_from_tables (NORMAL_POLICY SPLIT_POLICY : gmap string PolicyEntry)
    (player_cards : list Z) (dealer_up : Z) (ctx : Ctx) : outcome string :=
  let total := player_total ctx in
  let soft := player_soft ctx in
  let can_spl := ctx_can_split ctx in
  let can_dbl := ctx_can_double ctx in
  (* 1) split: only if allowed and the table says P *)
  split_now ←
    (if can_spl then
       match player_cards with
       | [] => Raise IndexError
       | pair_rank :: _ =>
         match SPLIT_POLICY !! split_key pair_rank dealer_up with
         | Some sp => Ok (String.eqb (action sp) "P")
         | None => Ok false
         end
       end
     else Ok false);
  if split_now : bool then Ok "P"%string
  else
    (* 2) normal policy lookup *)
    match NORMAL_POLICY !! normal_key total soft dealer_up with
    | Some np =>
      let action := action np in
      if String.eqb action "D" && negb can_dbl then Ok "H"%string
      else if String.eqb action "P" && negb can_spl then Ok "H"%string
      else Ok action
    | None =>
      (* 3) fallback *)
      if 17 <=? total then Ok "S"%string
      else if total <=? 8 then Ok "H"%string
      else if (9 <=? total) && (total <=? 11) && can_dbl then Ok "D"%string
      else Ok "H"%string
    end.

(** ** Hand features of the training scripts and of the command line *)

(** The loop [for c in hand] of [hand_features]: the values and the number
    of Aces. The cards are integers already, so [int(c)] is [c]. *)
Fixpoint features_loop (hand values : list Z) (ace_count : nat)
  : list Z * nat :=
  match hand with
  | [] => (values, ace_count)
  | v :: hand' =>
    if v =? 11 then features_loop hand' (values ++ [11]) (S ace_count)
    else features_loop hand' (values ++ [v]) ace_count
  end.

(** [hand_features] of [blackjack_policy_cli.py], [blackjack_step2.py] and
    [blackjack_train_policy_chunks.py], on a list of integers. The result is
    [(total, is_soft, is_pair, pair_rank)], with [None] for Python's
    [None]. *)
Definition hand_features (hand : list Z)
  : option Z * option bool * bool * option Z :=
  if Nat.eqb (length hand) 0 then (None, None, false, None)
  else
    let '(values, ace_count) := features_loop hand [] 0 in
    let total := sum values in
    let '(total, aces_as_11) := downgrade total ace_count in
    let is_soft := Nat.ltb 0 aces_as_11 && (total <=? 21) in
    let is_pair :=
      Nat.eqb (length values) 2
      && (match values with a :: b :: _ => a =? b | _ => false end) in
    let pair_rank := if is_pair then Some (List.hd 0 values) else None in
    (Some total, Some is_soft, is_pair, pair_rank).

(** The first loop of [hand_value_and_soft] in [blackjack_step1.py]. *)
Fixpoint count_loop (hand : list Z) (total : Z) (aces : nat) : Z * nat :=
  match hand with
  | [] => (total, aces)
  | card :: hand' =>
    if card =? 11 then count_loop hand' (total + 11) (S aces)
    else count_loop hand' (total + card) aces
  end.

(** Its loop [while total > 21 and aces > 0], which also sets [soft]. *)
Fixpoint downgrade_soft (total : Z) (aces : nat) (soft : bool)
  : Z * nat * bool :=
  match aces with
  | O => (total, O, soft)
  | S k =>
    if 21 <? total then downgrade_soft (total - 10) k true
    else (total, aces, soft)
  end.

Definition hand_value_and_soft (hand : list Z) : Z * bool :=
  let '(total, aces) := count_loop hand 0 0 in
  let soft := false in
  let '(total, aces, soft) := downgrade_soft total aces soft in
  let soft := if Nat.ltb 0 aces && (total <=? 21) then true else soft in
  (total, soft).

(** ** The fallback of the command line ([smart_fallback]) *)

(** The loop [for key, val in NORMAL_POLICY.items()]; the table is the list
    of its items in the order of the dictionary. *)
Fixpoint best_entry (items : list (string * PolicyEntry)) (prefix : string)
    (best_action : option string) (best_er : float) : option string * float :=
  match items with
  | [] => (best_action, best_er)
  | (key, val) :: items' =>
    if String.prefix prefix key then
      let er := expected_reward val in
      if (best_er <? er)%float
      then best_entry items' prefix (Some (action val)) er
      else best_entry items' prefix best_action best_er
    else best_entry items' prefix best_action best_er
  end.

(** [smart_fallback] of [blackjack_policy_cli.py]; [NORMAL_POLICY] is the
    module's table, here an argument. *)
Definition smart_fallback (NORMAL_POLICY : list (string * PolicyEntry))
    (player_value : Z) (player_soft : bool) : string * float :=
  let prefix :=
    pretty player_value +:+ "_" +:+ pretty (Z.b2z player_soft) +:+ "_" in
  let '(best_action, best_er) :=
    best_entry NORMAL_POLICY prefix None (-1000000000)%float in
  match best_action with
  | Some a => (a, best_er)
  | None =>
    (* last resort heuristic *)
    (if player_value <? 12 then "H"%string else "S"%string, 0%float)
  end.

(** * Properties *)

(** ** Examples from the specification *)

Example hand_value_soft : hand_value [11; 6] = (17, true).
Proof. reflexivity. Qed.
Example hand_value_hard : hand_value [11; 6; 10] = (17, false).
Proof. reflexivity. Qed.
Example play_dealer_16 : play_dealer [4; 10; 3] [7; 9] = Ok ([4; 10], [7; 9; 3]).
Proof. reflexivity. Qed.

(** ** Shoe *)

Lemma draw_card_app (shoe : list Z) (c : Z) :
  draw_card (shoe ++ [c]) = Ok (c, shoe).
Proof.
  unfold draw_card. destruct (shoe ++ [c]) eqn:E.
  - destruct shoe; discriminate.
  - rewrite <- E, last_last, removelast_last. reflexivity.
Qed.

Lemma draw_card_inv (shoe shoe' : list Z) (c : Z) :
  draw_card shoe = Ok (c, shoe') → shoe = shoe' ++ [c].
Proof.
  destruct shoe as [|x l] using rev_ind; [discriminate|].
  rewrite draw_card_app. congruence.
Qed.

Lemma draw_card_length (shoe shoe' : list Z) (c : Z) :
  draw_card shoe = Ok (c, shoe') → length shoe = S (length shoe').
Proof.
  intros ->%draw_card_inv. rewrite length_app. simpl. lia.
Qed.

Lemma draw_card_error (shoe : list Z) (e : error) :
  draw_card shoe = Raise e → shoe = [] ∧ e = ShoeEmpty.
Proof. destruct shoe; simpl; intros H; by inversion H. Qed.

(** C8. [draw_card] on a non-empty shoe returns its last card and leaves the
    cards before it, one card fewer; on the empty shoe it raises [ShoeEmpty]
    and gives no shoe back. *)
Theorem draw_card_spec (shoe : list Z) :
  (shoe = [] ∧ draw_card shoe = Raise ShoeEmpty)
  ∨ (∃ c shoe', shoe = shoe' ++ [c]
       ∧ draw_card shoe = Ok (c, shoe')
       ∧ S (length shoe') = length shoe).
Proof.
  destruct shoe as [|c shoe' _] using rev_ind.
  - left. split; reflexivity.
  - right. exists c, shoe'. split; [reflexivity|]. split.
    + apply draw_card_app.
    + rewrite length_app. simpl. lia.
Qed.

(** ** Hand evaluation *)

Lemma downgrade_spec (total : Z) (aces : nat) :
  ∃ k : nat,
    (k ≤ aces)%nat
    ∧ downgrade total aces = (total - 10 * Z.of_nat k, (aces - k)%nat)
    ∧ (∀ j : nat, (j < k)%nat → 21 < total - 10 * Z.of_nat j)
    ∧ ((k < aces)%nat → total - 10 * Z.of_nat k ≤ 21).
Proof.
  revert total. induction aces as [|n IH]; intros total.
  - exists 0%nat. simpl. repeat split; try lia. f_equal. lia.
  - simpl. destruct (Z.ltb_spec 21 total) as [Hgt|Hle].
    + destruct (IH (total - 10)) as (k & Hk & Heq & Hbefore & Hstop).
      exists (S k). repeat split.
      * lia.
      * rewrite Heq. f_equal. lia.
      * intros [|j] Hj.
        -- simpl. lia.
        -- specialize (Hbefore j). lia.
      * intros Hlt. lia.
    + exists 0%nat. repeat split; try lia. do 2 f_equal; lia.
Qed.

(** C5. [hand_value] returns the sum of the ranks less 10 for each of the
    first [k] Aces, where [k] is the number of times the total exceeded 21
    with an Ace still counted as 11; the hand is soft iff an Ace is still
    counted as 11 and the total is at most 21. *)
Theorem hand_value_spec (hand : list Z) :
  (∃ k : nat,
    (k ≤ count 11 hand)%nat
    ∧ fst (hand_value hand) = sum hand - 10 * Z.of_nat k
    ∧ (∀ j : nat, (j < k)%nat → 21 < sum hand - 10 * Z.of_nat j)
    ∧ ((k < count 11 hand)%nat → sum hand - 10 * Z.of_nat k ≤ 21)
    ∧ (snd (hand_value hand) = true
       ↔ (k < count 11 hand)%nat ∧ fst (hand_value hand) ≤ 21))
  ∧ hand_value [11; 6] = (17, true)
  ∧ hand_value [11; 6; 10] = (17, false).
Proof.
  split; [|split; reflexivity].
  unfold hand_value.
  destruct (downgrade_spec (sum hand) (count 11 hand))
    as (k & Hk & Heq & Hbefore & Hstop).
  exists k. rewrite Heq. simpl. repeat split; try assumption.
  - apply andb_prop in H as [H1 _]. apply Nat.ltb_lt in H1. lia.
  - apply andb_prop in H as [_ H2]. by apply Z.leb_le in H2.
  - intros [H1 H2]. apply andb_true_intro. split.
    + apply Nat.ltb_lt. lia.
    + by apply Z.leb_le.
Qed.

(** ** Settlement *)

Lemma settle_unset (hand : HandState) (dealer_cards : list Z) :
  result hand = None →
  settle_hand_vs_dealer hand dealer_cards
  = (settlement_rule hand dealer_cards,
     set_result hand (Some (settlement_rule hand dealer_cards))).
Proof.
  intros Hnone. unfold settle_hand_vs_dealer, settlement_rule.
  rewrite Hnone.
  destruct (is_busted hand); [reflexivity|].
  destruct (hand_value (cards hand)) as [pt ps].
  destruct (hand_value dealer_cards) as [dt ds]. simpl.
  destruct (Z.ltb_spec 21 dt).
  { rewrite bool_decide_eq_true_2 by lia. reflexivity. }
  rewrite (bool_decide_eq_false_2 (dt > 21)) by lia.
  assert (Hbj : (length dealer_cards =? 2)%nat && (dt =? 21)
                = bool_decide (length dealer_cards = 2%nat ∧ dt = 21)).
  { destruct (Nat.eqb_spec (length dealer_cards) 2),
      (Z.eqb_spec dt 21); simpl; symmetry;
      (apply bool_decide_eq_true_2 || apply bool_decide_eq_false_2);
      tauto. }
  rewrite Hbj.
  destruct (is_blackjack_flag hand && _); [reflexivity|].
  destruct (Z.ltb_spec pt dt), (Z.ltb_spec dt pt);
    repeat case_bool_decide; try lia; reflexivity.
Qed.

(** C4. A hand whose result is set is returned as it is; otherwise the
    result is the one of [settlement_rule] and is stored in the hand, so a
    second settlement, against whatever dealer cards, returns the first
    result and changes nothing. *)
Theorem settle_hand_vs_dealer_spec (hand : HandState) (dealer_cards : list Z) :
  settle_hand_vs_dealer hand dealer_cards
  = match result hand with
    | Some r => (r, hand)
    | None =>
      (settlement_rule hand dealer_cards,
       set_result hand (Some (settlement_rule hand dealer_cards)))
    end
  ∧ ∀ dealer_cards' : list Z,
      settle_hand_vs_dealer
        (snd (settle_hand_vs_dealer hand dealer_cards)) dealer_cards'
      = settle_hand_vs_dealer hand dealer_cards.
Proof.
  destruct (result hand) as [r|] eqn:Hres.
  - assert (Hset : ∀ d, settle_hand_vs_dealer hand d = (r, hand)).
    { intros d. unfold settle_hand_vs_dealer. by rewrite Hres. }
    split; [apply Hset|]. intros d'. rewrite (Hset dealer_cards). simpl. apply Hset.
  - split; [by apply settle_unset|]. intros d'.
    rewrite (settle_unset hand dealer_cards Hres). simpl.
    unfold settle_hand_vs_dealer. reflexivity.
Qed.

(** ** Dealer play *)

Lemma play_dealer_unfold (h17 : bool) (shoe dealer_cards : list Z) :
  play_dealer_with h17 shoe dealer_cards
  = if dealer_stands h17 dealer_cards then Ok (shoe, dealer_cards)
    else '(c, shoe') ← draw_card shoe;
         play_dealer_with h17 shoe' (dealer_cards ++ [c]).
Proof.
  unfold play_dealer_with, dealer_stands. simpl.
  destruct (hand_value dealer_cards) as [total is_soft].
  assert (Hhit :
    ('(c, shoe') ← draw_card shoe;
     play_dealer_loop (length shoe) h17 shoe' (dealer_cards ++ [c]))
    = ('(c, shoe') ← draw_card shoe;
       play_dealer_loop (S (length shoe')) h17 shoe' (dealer_cards ++ [c]))).
  { destruct (draw_card shoe) as [[c shoe']|e] eqn:Hdraw; [|reflexivity].
    simpl. by rewrite (draw_card_length _ _ _ Hdraw). }
  rewrite Hhit.
  destruct (Z.ltb_spec 21 total).
  { rewrite (bool_decide_eq_true_2 (total > 21)) by lia. reflexivity. }
  rewrite (bool_decide_eq_false_2 (total > 21)) by lia.
  destruct h17; simpl.
  - destruct (Z.ltb_spec 17 total).
    { rewrite (bool_decide_eq_true_2 (total > 17)) by lia. reflexivity. }
    rewrite (bool_decide_eq_false_2 (total > 17)) by lia. simpl.
    destruct (Z.eqb_spec total 17).
    + rewrite (bool_decide_eq_true_2 (17 ≤ total)) by lia. reflexivity.
    + rewrite (bool_decide_eq_false_2 (17 ≤ total)) by lia. reflexivity.
  - destruct (Z.leb_spec 17 total).
    + rewrite (bool_decide_eq_true_2 (17 ≤ total)) by lia. reflexivity.
    + rewrite (bool_decide_eq_false_2 (17 ≤ total)) by lia. reflexivity.
Qed.

Lemma play_dealer_result (h17 : bool) (shoe dealer_cards : list Z) :
  match play_dealer_with h17 shoe dealer_cards with
  | Ok (shoe', dealer_cards') => dealer_run h17 shoe dealer_cards shoe' dealer_cards'
  | Raise e =>
    e = ShoeEmpty
    ∧ ∀ n : nat, (n ≤ length shoe)%nat →
        dealer_stands h17 (dealer_cards ++ take n (rev shoe)) = false
  end.
Proof.
  revert dealer_cards.
  induction shoe as [|c shoe IH] using rev_ind; intros dealer_cards;
    rewrite play_dealer_unfold;
    destruct (dealer_stands h17 dealer_cards) eqn:Hstand.
  - exists []. rewrite app_nil_r. simpl. repeat split; rewrite ?app_nil_r; first [done | intros n Hn; lia].
  - simpl. split; [done|]. intros n Hn. rewrite take_nil, app_nil_r. done.
  - exists []. rewrite !app_nil_r. simpl. repeat split; rewrite ?app_nil_r; first [done | intros n Hn; lia].
  - rewrite draw_card_app. simpl.
    specialize (IH (dealer_cards ++ [c])).
    destruct (play_dealer_with h17 shoe (dealer_cards ++ [c]))
      as [[shoe' dealer_cards']|e].
    + destruct IH as (drawn & Hshoe & Hcards & Hfinal & Hbefore).
      exists (c :: drawn). repeat split.
      * simpl. rewrite Hshoe. by rewrite <- app_assoc.
      * rewrite Hcards. by rewrite <- app_assoc.
      * done.
      * intros [|n] Hn.
        -- simpl. by rewrite app_nil_r.
        -- simpl in *. rewrite cons_middle, app_assoc.
           apply Hbefore. lia.
    + destruct IH as [-> Hbefore]. split; [done|].
      rewrite rev_app_distr. simpl. intros [|n] Hn.
      * simpl. by rewrite app_nil_r.
      * simpl. rewrite cons_middle, app_assoc. apply Hbefore.
        rewrite length_app in Hn. simpl in Hn. lia.
Qed.

(** C7. The dealer's loop under either table rule: it returns at once when
    [dealer_stands] holds (a bust, 17 or more under S17, above 17 or a hard
    17 under H17) and otherwise draws a card and goes on; it ends standing
    or with the shoe exhausted; [play_dealer] is the S17 loop. *)
Theorem play_dealer_spec (h17 : bool) (shoe dealer_cards : list Z) :
  play_dealer_with h17 shoe dealer_cards
  = (if dealer_stands h17 dealer_cards then Ok (shoe, dealer_cards)
     else '(c, shoe') ← draw_card shoe;
          play_dealer_with h17 shoe' (dealer_cards ++ [c]))
  ∧ match play_dealer_with h17 shoe dealer_cards with
    | Ok (shoe', dealer_cards') =>
      dealer_run h17 shoe dealer_cards shoe' dealer_cards'
    | Raise e => e = ShoeEmpty
    end
  ∧ dealer_stands h17 dealer_cards
    = (let '(total, is_soft) := hand_value dealer_cards in
       if h17 then negb (bool_decide (total < 17)
                         || (bool_decide (total = 17) && is_soft))
       else negb (bool_decide (total < 17)))
  ∧ play_dealer shoe dealer_cards = play_dealer_with false shoe dealer_cards.
Proof.
  split; [apply play_dealer_unfold|]. split; [|split; [|reflexivity]].
  - pose proof (play_dealer_result h17 shoe dealer_cards) as H.
    destruct (play_dealer_with h17 shoe dealer_cards) as [[? ?]|e];
      [done|by destruct H].
  - unfold dealer_stands.
    destruct (hand_value dealer_cards) as [total is_soft].
    destruct h17, is_soft; repeat case_bool_decide; simpl; try lia;
      reflexivity.
Qed.

(** ** Immediate settlement of naturals *)

Lemma deal_four (rest : list Z) (p1 p2 d1 d2 : Z) :
  rest ++ [d2; d1; p2; p1] = (((rest ++ [d2]) ++ [d1]) ++ [p2]) ++ [p1].
Proof. by rewrite <- !app_assoc. Qed.

(** C3. When the player's two cards or the dealer's two cards are a natural,
    [play_round] returns right after the deal: one hand, holding the two
    cards dealt, with result 1.5 times the bet (player only), minus the bet
    (dealer only) or 0 (both); the policy state is the one passed in and the
    log has no step. *)
Theorem play_round_naturals {PS : Type} (rest : list Z) (p1 p2 d1 d2 : Z)
    (policy : PolicyFunc PS) (ps : PS) (base_bet : float) (log : bool) :
  is_blackjack [p1; p2] || is_blackjack [d1; d2] = true →
  play_round (rest ++ [d2; d1; p2; p1]) policy ps base_bet log
  = Ok (mkRoundState rest
          [mkHandState [p1; p2] base_bet false false (is_blackjack [p1; p2])
             false
             (Some (match is_blackjack [p1; p2], is_blackjack [d1; d2] with
                    | true, false => (base_bet * 1.5)%float
                    | false, true => (- base_bet)%float
                    | _, _ => 0%float
                    end))
             ∅]
          [d1; d2] (is_blackjack [p1; p2]) (if log then Some [] else None),
        ps).
Proof.
  intros Hnat. unfold play_round.
  rewrite deal_four. unfold mbind, outcome_bind.
  do 4 (rewrite draw_card_app; cbv beta iota).
  cbv zeta. cbn [is_blackjack_flag].
  rewrite Hnat.
  destruct (is_blackjack [p1; p2]), (is_blackjack [d1; d2]);
    try discriminate; reflexivity.
Qed.

Lemma play_round_naturals_witness :
  is_blackjack [11; 10] || is_blackjack [10; 6] = true
  ∧ play_round ([2; 3] ++ [6; 10; 10; 11]) hit_policy 0%nat 1%float true
    = Ok (mkRoundState [2; 3]
            [mkHandState [11; 10] 1%float false false true false
               (Some 1.5%float) ∅]
            [10; 6] true (Some []),
          0%nat).
Proof.
  split; [reflexivity|].
  exact (play_round_naturals [2; 3] 11 10 10 6 hit_policy 0%nat 1%float true
           eq_refl).
Defined.

(** ** Split *)

Lemma list_insert_at_after {A : Type} (l : list A) (i : nat) (x y z : A) :
  l !! i = Some x →
  list_insert_at (i + 1) z (<[i := y]> l) = take i l ++ [y; z] ++ drop (S i) l.
Proof.
  unfold list_insert_at. revert i.
  induction l as [|a l IH]; intros [|i] Hi; try discriminate.
  - reflexivity.
  - simpl in *. f_equal. by apply IH.
Qed.

Lemma apply_action_split_ok (rest : list Z) (c1 c2 : Z) (st : RoundState)
    (i : nat) (hand : HandState) :
  player_hands st !! i = Some hand →
  can_split (cards hand) = true →
  (existing_splits (player_hands st) < MAX_SPLITS)%nat →
  apply_action_split (rest ++ [c2; c1]) st i
  = Ok (rest,
        set_player_hands st
          (take i (player_hands st)
           ++ [split_first hand c1; split_second hand c2]
           ++ drop (S i) (player_hands st))).
Proof.
  intros Hi Hpair Hcap. unfold apply_action_split.
  rewrite Hi, Hpair. simpl negb. cbv iota.
  destruct (Nat.leb_spec MAX_SPLITS (existing_splits (player_hands st)));
    [lia|].
  replace (rest ++ [c2; c1]) with ((rest ++ [c2]) ++ [c1])
    by (by rewrite <- app_assoc).
  unfold mbind, outcome_bind.
  do 2 (rewrite draw_card_app; cbv beta iota). cbv zeta.
  unfold split_first, split_second.
  destruct (List.hd 0 (cards hand) =? 11) eqn:Hace; cbv beta iota;
    unfold set_player_hands at 1; cbn [player_hands];
    rewrite (list_insert_at_after (player_hands st) i hand _ _ Hi);
    reflexivity.
Qed.

Lemma apply_action_split_refused (shoe : list Z) (st : RoundState) (i : nat)
    (hand : HandState) :
  player_hands st !! i = Some hand →
  can_split (cards hand) = false
  ∨ (MAX_SPLITS ≤ existing_splits (player_hands st))%nat →
  apply_action_split shoe st i = Ok (shoe, st).
Proof.
  intros Hi Hno. unfold apply_action_split. rewrite Hi.
  destruct (can_split (cards hand)); cbn [negb]; [|reflexivity].
  destruct Hno as [?|Hcap]; [discriminate|].
  destruct (Nat.leb_spec MAX_SPLITS (existing_splits (player_hands st)));
    [reflexivity|lia].
Qed.

(** ** The action loop *)

Lemma apply_action_hit_inv (shoe : list Z) (h : HandState) :
  match apply_action_hit shoe h with
  | Ok (shoe', h') =>
    ∃ c, shoe = shoe' ++ [c]
      ∧ (h' = set_cards h (cards h ++ [c])
         ∨ h' = set_finished (set_busted (set_cards h (cards h ++ [c])) true)
                  true)
  | Raise e => e = ShoeEmpty
  end.
Proof.
  unfold apply_action_hit.
  destruct (draw_card shoe) as [[c shoe']|e] eqn:Hdraw; simpl.
  - apply draw_card_inv in Hdraw.
    destruct (hand_value (cards h ++ [c])) as [total soft].
    destruct (21 <? total); exists c; auto.
  - by destruct (draw_card_error _ _ Hdraw).
Qed.

Lemma apply_action_double_inv (shoe : list Z) (h : HandState) :
  length (cards h) = 2%nat →
  match apply_action_double shoe h with
  | Ok (shoe', h') =>
    ∃ c, shoe = shoe' ++ [c]
      ∧ bet h' = (bet h * 2)%float ∧ is_finished h' = true
      ∧ cards h' = cards h ++ [c]
  | Raise e => e = ShoeEmpty
  end.
Proof.
  intros Hlen. unfold apply_action_double. rewrite Hlen. simpl.
  destruct (draw_card shoe) as [[c shoe']|e] eqn:Hdraw; simpl.
  - apply draw_card_inv in Hdraw.
    destruct (hand_value (cards h ++ [c])) as [total soft].
    destruct (21 <? total); exists c; auto.
  - by destruct (draw_card_error _ _ Hdraw).
Qed.

Lemma apply_action_split_inv (shoe : list Z) (st : RoundState) (i : nat)
    (h : HandState) :
  player_hands st !! i = Some h →
  match apply_action_split shoe st i with
  | Ok (shoe', st') =>
    (shoe' = shoe ∧ st' = st)
    ∨ (∃ c1 c2,
         shoe = shoe' ++ [c2; c1]
         ∧ can_split (cards h) = true
         ∧ (existing_splits (player_hands st) < MAX_SPLITS)%nat
         ∧ st' = set_player_hands st
                   (take i (player_hands st)
                    ++ [split_first h c1; split_second h c2]
                    ++ drop (S i) (player_hands st)))
  | Raise e => e = ShoeEmpty
  end.
Proof.
  intros Hi.
  destruct (can_split (cards h)) eqn:Hpair.
  2: { rewrite (apply_action_split_refused _ _ _ _ Hi); auto. }
  destruct (Nat.leb_spec MAX_SPLITS (existing_splits (player_hands st)))
    as [Hcap|Hcap].
  { rewrite (apply_action_split_refused _ _ _ _ Hi); auto. }
  destruct shoe as [|c1 shoe _] using rev_ind.
  { unfold apply_action_split. rewrite Hi, Hpair. cbn [negb].
    destruct (Nat.leb_spec MAX_SPLITS (existing_splits (player_hands st)));
      [lia|reflexivity]. }
  destruct shoe as [|c2 shoe _] using rev_ind.
  { unfold apply_action_split. rewrite Hi, Hpair. cbn [negb].
    destruct (Nat.leb_spec MAX_SPLITS (existing_splits (player_hands st)));
      [lia|]. unfold mbind, outcome_bind.
    rewrite (draw_card_app [] c1). reflexivity. }
  rewrite <- app_assoc. simpl "++".
  rewrite (apply_action_split_ok _ _ _ _ _ _ Hi Hpair Hcap).
  right. exists c1, c2. auto.
Qed.

Lemma loop_post_refl {PS : Type} (st : RoundState) (ps : PS) :
  loop_post st (Ok (st, ps)).
Proof. simpl. repeat split; [apply rtc_refl|lia|lia]. Qed.

Lemma loop_post_trans {PS : Type} (st st1 : RoundState)
    (r : outcome (RoundState * PS)) (ps : PS) :
  loop_post st (Ok (st1, ps)) → loop_post st1 r → loop_post st r.
Proof.
  intros (Hsteps & Hlen & Hcost & Hdealer). destruct r as [[st2 ps2]|e]; [|done].
  intros (Hsteps' & Hlen' & Hcost' & Hdealer'). simpl.
  repeat split; [by etrans|lia|lia|congruence].
Qed.

Lemma log_step_fields (log : bool) (st : RoundState) (e : Step) :
  player_hands (log_step log st e) = player_hands st
  ∧ shoe (log_step log st e) = shoe st
  ∧ dealer_cards (log_step log st e) = dealer_cards st.
Proof. by destruct log. Qed.

Section LoopSound.
Context {PS : Type} (policy : PolicyFunc PS) (log : bool) (dealer_up : Z).

Lemma hand_loop_post (fuel : nat) :
  ∀ (i : nat) (st : RoundState) (ps : PS),
    (i < length (player_hands st))%nat →
    (1 ≤ fuel)%nat →
    (∀ h, player_hands st !! i = Some h → is_finished h = false →
          (length (shoe st) + 2 ≤ fuel)%nat) →
    loop_post st (hand_loop policy log dealer_up fuel i st ps).
Proof.
  induction fuel as [|fuel IH]; intros i st ps Hi Hone Hfuel; [lia|].
  cbn [hand_loop].
  destruct (lookup_lt_is_Some_2 _ _ Hi) as [hand Hhand]. rewrite Hhand.
  destruct (is_finished hand) eqn:Hfin; [apply loop_post_refl|].
  specialize (Hfuel hand Hhand Hfin).
  destruct (hand_value (cards hand)) as [total is_soft].
  destruct (21 <? total).
  { simpl. repeat split.
    - apply rtc_once. eapply step_act; eauto using hand_action.
    - by rewrite length_insert.
    - rewrite length_insert. lia. }
  destruct (policy ps (cards hand) dealer_up _) as [answer ps1].
  cbv zeta.
  match goal with |- context [log_step log st ?e] =>
    destruct (log_step_fields log st e) as (Hhands1 & Hshoe1 & Hdealer1);
    set (st1 := log_step log st e) in *
  end.
  (* going round again after the hand has become [h'] *)
  assert (Hcont : ∀ shoe' h',
    hand_action hand h' →
    (length shoe' ≤ length (shoe st))%nat →
    is_finished h' = true ∨ (length shoe' < length (shoe st))%nat →
    loop_post st
      (hand_loop policy log dealer_up fuel i
         (set_hand (set_shoe st1 shoe') i h') ps1)).
  { intros shoe' h' Hact Hle Hprogress.
    apply (loop_post_trans st (set_hand (set_shoe st1 shoe') i h') _ ps1).
    - simpl. rewrite Hhands1, Hdealer1. repeat split.
      + apply rtc_once. eapply step_act; eauto.
      + by rewrite length_insert.
      + rewrite length_insert. lia.
    - apply IH.
      + simpl. rewrite length_insert, Hhands1. done.
      + lia.
      + simpl. rewrite Hhands1. intros h.
        rewrite list_lookup_insert_eq by done.
        intros [= <-] Hunf. destruct Hprogress as [?|?]; [congruence|lia]. }
  assert (Hstand :
    loop_post st
      (hand_loop policy log dealer_up fuel i
         (set_hand st1 i (apply_action_stand hand)) ps1)).
  { replace st1 with (set_shoe st1 (shoe st1)) at 1 by (by destruct st1).
    apply Hcont; [apply act_finish|rewrite Hshoe1; lia|by left]. }
  assert (Hhit :
    loop_post st
      ('(shoe', hand') ← apply_action_hit (shoe st1) hand;
       hand_loop policy log dealer_up fuel i
         (set_hand (set_shoe st1 shoe') i hand') ps1)).
  { pose proof (apply_action_hit_inv (shoe st1) hand) as Hinv.
    destruct (apply_action_hit (shoe st1) hand) as [[shoe' hand']|e]
      eqn:Hhit; [|exact Hinv].
    destruct Hinv as (c & Hshoe & _). simpl.
    assert (length (shoe st) = S (length shoe')).
    { rewrite <- Hshoe1, Hshoe, length_app. simpl. lia. }
    apply Hcont; [by eapply act_hit|lia|right; lia]. }
  destruct (String.eqb (upper answer) "H").
  { destruct (is_split_ace hand); [|exact Hhit]. exact Hstand. }
  destruct (String.eqb (upper answer) "S"); [exact Hstand|].
  destruct (String.eqb (upper answer) "D").
  { destruct (Nat.eqb_spec (length (cards hand)) 2) as [Hlen|];
      [|exact Hhit].
    pose proof (apply_action_double_inv (shoe st1) hand Hlen) as Hinv.
    destruct (apply_action_double (shoe st1) hand) as [[shoe' hand']|e]
      eqn:Hdouble; [|exact Hinv].
    destruct Hinv as (c & Hshoe & _). simpl.
    assert (length (shoe st) = S (length shoe')).
    { rewrite <- Hshoe1, Hshoe, length_app. simpl. lia. }
    apply Hcont; [by eapply act_double|lia|right; lia]. }
  destruct (String.eqb (upper answer) "P").
  { destruct (can_split (cards hand)); [|exact Hhit].
    assert (Hhand1 : player_hands st1 !! i = Some hand) by by rewrite Hhands1.
    pose proof (apply_action_split_inv (shoe st1) st1 i hand Hhand1) as Hinv.
    destruct (apply_action_split (shoe st1) st1 i) as [[shoe' st']|e];
      [|exact Hinv].
    simpl.
    destruct Hinv as [[-> ->]|(c1 & c2 & Hshoe & Hpair & Hcap & ->)].
    - simpl. rewrite Hhands1, Hshoe1, Hdealer1.
      repeat split; [apply rtc_refl|lia|lia].
    - rewrite Hhands1 in Hcap.
      assert (length (shoe st) = S (S (length shoe'))).
      { rewrite <- Hshoe1, Hshoe, length_app. simpl. lia. }
      assert (Hlen' :
        length (take i (player_hands st)
                ++ [split_first hand c1; split_second hand c2]
                ++ drop (S i) (player_hands st))
        = S (length (player_hands st))).
      { rewrite !length_app, length_take, length_drop. simpl. lia. }
      unfold loop_post. cbn [set_shoe set_player_hands player_hands shoe
                             dealer_cards].
      rewrite Hhands1, Hdealer1, Hlen'.
      repeat split.
      + apply rtc_once. by eapply step_split.
      + lia.
      + lia. }
  destruct (String.eqb (upper answer) "R"); exact Hstand.
Qed.

Lemma hands_loop_post (fuel : nat) :
  ∀ (i : nat) (st : RoundState) (ps : PS),
    (length (shoe st) + (length (player_hands st) - i) + 1 ≤ fuel)%nat →
    loop_post st (hands_loop policy log dealer_up fuel i st ps).
Proof.
  induction fuel as [|fuel IH]; intros i st ps Hfuel; [lia|].
  cbn [hands_loop].
  destruct (Nat.ltb_spec i (length (player_hands st))) as [Hi|Hi];
    [|apply loop_post_refl].
  destruct (lookup_lt_is_Some_2 _ _ Hi) as [hand Hhand]. rewrite Hhand.
  destruct (is_finished hand) eqn:Hfin.
  { apply IH. lia. }
  pose proof (hand_loop_post (hand_fuel st) i st ps Hi) as Hinner.
  unfold hand_fuel in *.
  destruct (hand_loop policy log dealer_up _ i st ps) as [[st1 ps1]|e];
    simpl; [|apply Hinner; intros; lia].
  eapply (loop_post_trans _ st1 _ ps1); [apply Hinner; intros; lia|].
  assert (loop_post st (Ok (st1, ps1))) as (_ & Hlen & Hcost & _)
    by (apply Hinner; intros; lia).
  apply IH. lia.
Qed.
End LoopSound.

(** ** The whole round *)

Lemma settle_same_but_result (h : HandState) (dealer_cards : list Z) :
  same_but_result h (snd (settle_hand_vs_dealer h dealer_cards)).
Proof.
  destruct (result h) as [r|] eqn:Hres.
  - exists (Some r). unfold settle_hand_vs_dealer. rewrite Hres. simpl.
    destruct h; simpl in *; by subst.
  - rewrite (settle_unset h dealer_cards Hres). simpl. by eexists.
Qed.

Lemma dealer_phase_post (st : RoundState) :
  match dealer_phase st with
  | Ok st' => player_hands st' = player_hands st
  | Raise e => e = ShoeEmpty
  end.
Proof.
  unfold dealer_phase.
  destruct (existsb _ (player_hands st)); [|reflexivity].
  unfold play_dealer.
  pose proof (play_dealer_result DEALER_HITS_SOFT_17 (shoe st)
                (dealer_cards st)) as Hrun.
  destruct (play_dealer_with _ _ _) as [[shoe' dealer']|e]; simpl.
  - reflexivity.
  - by destruct Hrun.
Qed.

(** Every result of [play_round] is a round of four dealt cards whose hands
    were reached from the dealt hand by steps of [round_step] and then
    settled; the only error is the empty shoe. *)
Lemma play_round_post {PS : Type} (shoe : list Z) (policy : PolicyFunc PS)
    (ps : PS) (base_bet : float) (log : bool) :
  match play_round shoe policy ps base_bet log with
  | Ok (st, _) =>
    ∃ rest p1 p2 d1 d2 hands,
      shoe = rest ++ [d2; d1; p2; p1]
      ∧ rtc round_step [initial_hand p1 p2 base_bet] hands
      ∧ Forall2 same_but_result hands (player_hands st)
  | Raise e => e = ShoeEmpty
  end.
Proof.
  unfold play_round, mbind, outcome_bind.
  destruct (draw_card shoe) as [[p1 s1]|e] eqn:H1;
    [apply draw_card_inv in H1|by destruct (draw_card_error _ _ H1)].
  destruct (draw_card s1) as [[p2 s2]|e] eqn:H2;
    [apply draw_card_inv in H2|by destruct (draw_card_error _ _ H2)].
  destruct (draw_card s2) as [[d1 s3]|e] eqn:H3;
    [apply draw_card_inv in H3|by destruct (draw_card_error _ _ H3)].
  destruct (draw_card s3) as [[d2 rest]|e] eqn:H4;
    [apply draw_card_inv in H4|by destruct (draw_card_error _ _ H4)].
  assert (Hshoe : shoe = rest ++ [d2; d1; p2; p1]).
  { subst. by rewrite <- !app_assoc. }
  cbv zeta. cbn [is_blackjack_flag].
  fold (initial_hand p1 p2 base_bet).
  destruct (is_blackjack [p1; p2] || is_blackjack [d1; d2]).
  { exists rest, p1, p2, d1, d2, [initial_hand p1 p2 base_bet].
    split; [done|]. split; [apply rtc_refl|].
    simpl. constructor; [|constructor]. by eexists. }
  match goal with |- context [hands_loop _ _ _ ?f 0%nat ?s _] =>
    pose proof (hands_loop_post policy log d1 f 0%nat s ps) as Hloop;
    destruct (hands_loop policy log d1 f 0%nat s ps) as [[st1 ps1]|e]
  end.
  2: { apply Hloop. unfold hands_fuel. simpl. lia. }
  destruct Hloop as (Hsteps & _); [unfold hands_fuel; simpl; lia|].
  simpl in Hsteps.
  pose proof (dealer_phase_post st1) as Hdealer.
  destruct (dealer_phase st1) as [st2|e]; [|exact Hdealer].
  exists rest, p1, p2, d1, d2, (player_hands st1).
  split; [done|]. split; [done|].
  unfold settle_all. simpl. rewrite Hdealer.
  apply Forall2_fmap_r, Forall_Forall2_diag, Forall_forall.
  intros h _. apply settle_same_but_result.
Qed.

(** ** Bets *)

Lemma hand_action_bet (b : float) (h h' : HandState) :
  bet_inv b h → is_finished h = false → hand_action h h' → bet_inv b h'.
Proof.
  intros [Hb|[_ Hfin]] Hunf Hact; [|congruence].
  destruct Hact as [| |shoe shoe' h' Hhit|shoe shoe' h' Hlen Hdouble].
  - by left.
  - by left.
  - pose proof (apply_action_hit_inv shoe h) as Hinv. rewrite Hhit in Hinv.
    destruct Hinv as (c & _ & [->| ->]); by left.
  - pose proof (apply_action_double_inv shoe h Hlen) as Hinv.
    rewrite Hdouble in Hinv.
    destruct Hinv as (c & _ & Hbet & Hfin & _). right. by rewrite Hbet, Hb.
Qed.

Lemma round_step_bet (b : float) (hands hands' : list HandState) :
  Forall (bet_inv b) hands → round_step hands hands' →
  Forall (bet_inv b) hands'.
Proof.
  intros Hall Hstep.
  destruct Hstep as [hands i h h' Hi Hunf Hact|hands i h c1 c2 Hi Hunf _ _].
  - apply Forall_insert; [done|].
    eapply hand_action_bet; eauto. by eapply Forall_lookup_1.
  - assert (Hb : bet h = b).
    { destruct (Forall_lookup_1 _ _ _ _ Hall Hi) as [?|[_ ?]]; congruence. }
    apply Forall_app. split; [by apply Forall_take|].
    apply Forall_app. split; [|by apply Forall_drop].
    constructor; [by left|]. constructor; [by left|]. constructor.
Qed.

Lemma rtc_round_step_bet (b : float) (hands hands' : list HandState) :
  rtc round_step hands hands' → Forall (bet_inv b) hands →
  Forall (bet_inv b) hands'.
Proof. induction 1; eauto using round_step_bet. Qed.

(** C9. In the state that [play_round] returns every hand's bet is the base
    bet or twice the base bet; and a Double asked of a hand that does not
    hold exactly two cards is a Hit: one card is drawn and the bet stays. *)
Theorem play_round_bets {PS : Type} (shoe : list Z) (policy : PolicyFunc PS)
    (ps ps' : PS) (base_bet : float) (log : bool) (st : RoundState) :
  play_round shoe policy ps base_bet log = Ok (st, ps') →
  Forall (λ h, bet h = base_bet ∨ bet h = (base_bet * 2)%float)
    (player_hands st)
  ∧ ∀ (shoe0 : list Z) (hand : HandState),
      length (cards hand) ≠ 2%nat →
      apply_action_double shoe0 hand = apply_action_hit shoe0 hand
      ∧ ∀ shoe' hand',
          apply_action_double shoe0 hand = Ok (shoe', hand') →
          bet hand' = bet hand
          ∧ ∃ c, shoe0 = shoe' ++ [c] ∧ cards hand' = cards hand ++ [c].
Proof.
  intros Hround. split.
  - pose proof (play_round_post shoe policy ps base_bet log) as Hpost.
    rewrite Hround in Hpost.
    destruct Hpost as (rest & p1 & p2 & d1 & d2 & hands & _ & Hsteps & Hres).
    assert (Hinv : Forall (bet_inv base_bet) hands).
    { eapply rtc_round_step_bet; [exact Hsteps|].
      constructor; [by left|constructor]. }
    clear Hsteps. induction Hres as [|h h' hands hands' [r ->] _ IH];
      [constructor|].
    inversion Hinv as [|? ? Hh Hrest]; subst. constructor; [|by apply IH].
    simpl. destruct Hh as [?|[? _]]; auto.
  - intros shoe0 hand Hlen.
    assert (Heq : apply_action_double shoe0 hand
                  = apply_action_hit shoe0 hand).
    { unfold apply_action_double.
      by destruct (Nat.eqb_spec (length (cards hand)) 2). }
    split; [exact Heq|]. intros shoe' hand' Hok. rewrite Heq in Hok.
    pose proof (apply_action_hit_inv shoe0 hand) as Hinv.
    rewrite Hok in Hinv. destruct Hinv as (c & Hshoe & [->| ->]);
      (split; [reflexivity|]); exists c; auto.
Qed.

Lemma play_round_bets_witness :
  Forall (λ h, bet h = 1%float ∨ bet h = (1 * 2)%float)
    [mkHandState [5; 6; 9] 2%float true false false false (Some 2%float) ∅]
  ∧ ∀ (shoe0 : list Z) (hand : HandState),
      length (cards hand) ≠ 2%nat →
      apply_action_double shoe0 hand = apply_action_hit shoe0 hand
      ∧ ∀ shoe' hand',
          apply_action_double shoe0 hand = Ok (shoe', hand') →
          bet hand' = bet hand
          ∧ ∃ c, shoe0 = shoe' ++ [c] ∧ cards hand' = cards hand ++ [c].
Proof.
  apply (play_round_bets [9; 7; 10; 6; 5] double_policy 0%nat 1%nat 1%float
           false
           (mkRoundState []
              [mkHandState [5; 6; 9] 2%float true false false false
                 (Some 2%float) ∅]
              [10; 7] false None)).
  vm_compute. reflexivity.
Defined.

(** The model's own error and the subscript error never come out of
    [play_round]: it returns a round or raises on the empty shoe. *)
Lemma play_round_total {PS : Type} (shoe : list Z) (policy : PolicyFunc PS)
    (ps : PS) (base_bet : float) (log : bool) :
  (∃ st ps', play_round shoe policy ps base_bet log = Ok (st, ps'))
  ∨ play_round shoe policy ps base_bet log = Raise ShoeEmpty.
Proof.
  pose proof (play_round_post shoe policy ps base_bet log) as Hpost.
  destruct (play_round shoe policy ps base_bet log) as [[st ps']|e].
  - left. by exists st, ps'.
  - right. by rewrite Hpost.
Qed.

(** ** Finished hands *)

Lemma round_step_keeps_finished (hands hands' : list HandState)
    (x : HandState) :
  round_step hands hands' → x ∈ hands → is_finished x = true → x ∈ hands'.
Proof.
  intros Hstep Hx Hfin.
  destruct Hstep as [hands i h h' Hi Hunf _|hands i h c1 c2 Hi Hunf _ _].
  - apply list_elem_of_lookup in Hx as [j Hj].
    apply list_elem_of_lookup. exists j.
    rewrite list_lookup_insert_ne; [done|]. intros <-. congruence.
  - rewrite <- (take_drop_middle hands i h Hi) in Hx.
    rewrite !elem_of_app in *. rewrite elem_of_cons in Hx.
    destruct Hx as [?|[->|?]]; [by left|congruence|by right; right].
Qed.

Lemma rtc_round_step_keeps_finished (hands hands' : list HandState)
    (x : HandState) :
  rtc round_step hands hands' → x ∈ hands → is_finished x = true →
  x ∈ hands'.
Proof. induction 1; eauto using round_step_keeps_finished. Qed.

(** The outer loop passes over a finished hand: no policy call, no draw. *)
Lemma hands_loop_skip {PS : Type} (policy : PolicyFunc PS) (log : bool)
    (dealer_up : Z) (fuel i : nat) (st : RoundState) (ps : PS)
    (h : HandState) :
  player_hands st !! i = Some h → is_finished h = true →
  hands_loop policy log dealer_up (S fuel) i st ps
  = hands_loop policy log dealer_up fuel (i + 1) st ps.
Proof.
  intros Hi Hfin. cbn [hands_loop].
  pose proof (lookup_lt_Some _ _ _ Hi).
  destruct (Nat.ltb_spec i (length (player_hands st))); [|lia].
  by rewrite Hi, Hfin.
Qed.

(** C6. A split of a pair of Aces that is carried out (the cap is not
    reached and the shoe holds two cards) puts in the place of the hand two
    hands of two cards, the Ace and one drawn card each, both split-ace and
    finished; the outer loop passes over either of them, and whatever the
    action loop does to the other hands leaves both as they are. *)
Theorem split_aces (rest : list Z) (c1 c2 : Z) (st : RoundState) (i : nat)
    (hand : HandState) :
  player_hands st !! i = Some hand →
  cards hand = [11; 11] →
  (existing_splits (player_hands st) < MAX_SPLITS)%nat →
  ∃ h1 h2 hands',
    apply_action_split (rest ++ [c2; c1]) st i
    = Ok (rest, set_player_hands st hands')
    ∧ hands' = take i (player_hands st) ++ [h1; h2]
               ++ drop (S i) (player_hands st)
    ∧ length hands' = S (length (player_hands st))
    ∧ hands' !! i = Some h1 ∧ hands' !! S i = Some h2
    ∧ cards h1 = [11; c1] ∧ cards h2 = [11; c2]
    ∧ is_split_ace h1 = true ∧ is_split_ace h2 = true
    ∧ is_finished h1 = true ∧ is_finished h2 = true
    ∧ (∀ (PS : Type) (policy : PolicyFunc PS) log dealer_up fuel ps j st',
         player_hands st' !! j = Some h1 ∨ player_hands st' !! j = Some h2 →
         hands_loop policy log dealer_up (S fuel) j st' ps
         = hands_loop policy log dealer_up fuel (j + 1) st' ps)
    ∧ (∀ hands'', rtc round_step hands' hands'' →
         h1 ∈ hands'' ∧ h2 ∈ hands'').
Proof.
  intros Hi Hcards Hcap.
  assert (Hpair : can_split (cards hand) = true) by by rewrite Hcards.
  exists (split_first hand c1), (split_second hand c2). eexists.
  split; [by apply apply_action_split_ok|]. split; [reflexivity|].
  pose proof (lookup_lt_Some _ _ _ Hi) as Hlt.
  assert (Hlen : length (take i (player_hands st)) = i)
    by (rewrite length_take; lia).
  assert (H1 : (take i (player_hands st)
                ++ [split_first hand c1; split_second hand c2]
                ++ drop (S i) (player_hands st)) !! i
               = Some (split_first hand c1)).
  { rewrite lookup_app_r by lia. by rewrite Hlen, Nat.sub_diag. }
  assert (H2 : (take i (player_hands st)
                ++ [split_first hand c1; split_second hand c2]
                ++ drop (S i) (player_hands st)) !! S i
               = Some (split_second hand c2)).
  { rewrite lookup_app_r by lia. rewrite Hlen.
    by replace (S i - i)%nat with 1%nat by lia. }
  assert (Hf1 : cards (split_first hand c1) = [11; c1]
                ∧ is_split_ace (split_first hand c1) = true
                ∧ is_finished (split_first hand c1) = true)
    by (unfold split_first; by rewrite Hcards).
  assert (Hf2 : cards (split_second hand c2) = [11; c2]
                ∧ is_split_ace (split_second hand c2) = true
                ∧ is_finished (split_second hand c2) = true)
    by (unfold split_second; by rewrite Hcards).
  destruct Hf1 as (Hc1 & Ha1 & Hfin1), Hf2 as (Hc2 & Ha2 & Hfin2).
  split.
  { rewrite !length_app, length_take, length_drop. simpl. lia. }
  do 2 (split; [done|]). do 6 (split; [done|]). split.
  - intros PS policy log dealer_up fuel ps j st' [Hj|Hj];
      by eapply hands_loop_skip.
  - intros hands'' Hsteps.
    split; (eapply rtc_round_step_keeps_finished; [done| |done]);
      by eapply list_elem_of_lookup_2.
Qed.

Lemma split_aces_witness :
  ∃ h1 h2 hands',
    apply_action_split ([4] ++ [5; 10]) ace_pair_round 0
    = Ok ([4], set_player_hands ace_pair_round hands')
    ∧ hands' = take 0 (player_hands ace_pair_round) ++ [h1; h2]
               ++ drop 1 (player_hands ace_pair_round)
    ∧ length hands' = S (length (player_hands ace_pair_round))
    ∧ hands' !! 0%nat = Some h1 ∧ hands' !! 1%nat = Some h2
    ∧ cards h1 = [11; 10] ∧ cards h2 = [11; 5]
    ∧ is_split_ace h1 = true ∧ is_split_ace h2 = true
    ∧ is_finished h1 = true ∧ is_finished h2 = true
    ∧ (∀ (PS : Type) (policy : PolicyFunc PS) log dealer_up fuel ps j st',
         player_hands st' !! j = Some h1 ∨ player_hands st' !! j = Some h2 →
         hands_loop policy log dealer_up (S fuel) j st' ps
         = hands_loop policy log dealer_up fuel (j + 1) st' ps)
    ∧ (∀ hands'', rtc round_step hands' hands'' →
         h1 ∈ hands'' ∧ h2 ∈ hands'').
Proof.
  apply (split_aces [4] 10 5 ace_pair_round 0
           (mkHandState [11; 11] 1%float false false false false None ∅)).
  - reflexivity.
  - reflexivity.
  - vm_compute. lia.
Defined.

(** ** A two-card 21 after a split *)

(** C10 (amended). Either hand that a split makes has its natural flag set
    when its two cards total 21; such a hand, when it has no result yet, is
    not busted, the dealer's total is at most 21 and the dealer does not
    hold a two-card 21, is settled at 1.5 times its bet; when the dealer's
    total exceeds 21 it is settled at its bet. *)
Theorem post_split_natural (rest : list Z) (c1 c2 : Z) (st : RoundState)
    (i : nat) (hand : HandState) :
  player_hands st !! i = Some hand →
  can_split (cards hand) = true →
  (existing_splits (player_hands st) < MAX_SPLITS)%nat →
  ∃ h1 h2,
    apply_action_split (rest ++ [c2; c1]) st i
    = Ok (rest,
          set_player_hands st
            (take i (player_hands st) ++ [h1; h2]
             ++ drop (S i) (player_hands st)))
    ∧ result h2 = None ∧ is_busted h2 = false
    ∧ ∀ h, h = h1 ∨ h = h2 →
        fst (hand_value (cards h)) = 21 →
        is_blackjack_flag h = true
        ∧ ∀ dealer_cards,
            result h = None →
            is_busted h = false →
            (fst (hand_value dealer_cards) ≤ 21 →
             ¬ (length dealer_cards = 2%nat
                ∧ fst (hand_value dealer_cards) = 21) →
             settle_hand_vs_dealer h dealer_cards
             = ((bet h * 1.5)%float,
                set_result h (Some (bet h * 1.5)%float)))
            ∧ (21 < fst (hand_value dealer_cards) →
               settle_hand_vs_dealer h dealer_cards
               = (bet h, set_result h (Some (bet h)))).
Proof.
  intros Hi Hpair Hcap.
  exists (split_first hand c1), (split_second hand c2).
  split; [by apply apply_action_split_ok|]. do 2 (split; [reflexivity|]).
  intros h Hh H21.
  assert (Hflag : is_blackjack_flag h = true).
  { destruct Hh as [-> | ->]; simpl in *; unfold is_blackjack; simpl;
      by apply Z.eqb_eq. }
  split; [exact Hflag|].
  intros dealer_cards Hres Hbust.
  rewrite (settle_unset h dealer_cards Hres). unfold settlement_rule.
  rewrite Hbust, Hflag. split.
  - intros Hdealer Hno21.
    rewrite (bool_decide_eq_false_2 (fst (hand_value dealer_cards) > 21))
      by lia.
    by rewrite (bool_decide_eq_false_2 _ Hno21).
  - intros Hdealer.
    by rewrite (bool_decide_eq_true_2 (fst (hand_value dealer_cards) > 21))
      by lia.
Qed.

Lemma post_split_natural_witness :
  ∃ h1 h2,
    apply_action_split ([] ++ [11; 11]) ten_pair_round 0
    = Ok ([],
          set_player_hands ten_pair_round
            (take 0 (player_hands ten_pair_round) ++ [h1; h2]
             ++ drop 1 (player_hands ten_pair_round)))
    ∧ result h2 = None ∧ is_busted h2 = false
    ∧ ∀ h, h = h1 ∨ h = h2 →
        fst (hand_value (cards h)) = 21 →
        is_blackjack_flag h = true
        ∧ ∀ dealer_cards,
            result h = None →
            is_busted h = false →
            (fst (hand_value dealer_cards) ≤ 21 →
             ¬ (length dealer_cards = 2%nat
                ∧ fst (hand_value dealer_cards) = 21) →
             settle_hand_vs_dealer h dealer_cards
             = ((bet h * 1.5)%float,
                set_result h (Some (bet h * 1.5)%float)))
            ∧ (21 < fst (hand_value dealer_cards) →
               settle_hand_vs_dealer h dealer_cards
               = (bet h, set_result h (Some (bet h)))).
Proof.
  apply (post_split_natural [] 11 11 ten_pair_round 0 ten_pair).
  - reflexivity.
  - reflexivity.
  - vm_compute. lia.
Defined.

(** Against the claim as it was stated: the second hand of a split of tens
    drew an Ace, its natural flag is set, it is not busted, and the dealer,
    who went bust with three cards, holds no two-card 21; the hand is paid
    its bet, not 1.5 times its bet. *)
Lemma post_split_natural_dealer_bust :
  apply_action_split [11; 11] ten_pair_round 0
  = Ok ([],
        set_player_hands ten_pair_round
          [split_first ten_pair 11; split_second ten_pair 11])
  ∧ cards (split_second ten_pair 11) = [10; 11]
  ∧ hand_value (cards (split_second ten_pair 11)) = (21, true)
  ∧ is_blackjack_flag (split_second ten_pair 11) = true
  ∧ is_busted (split_second ten_pair 11) = false
  ∧ result (split_second ten_pair 11) = None
  ∧ hand_value [10; 6; 10] = (26, false)
  ∧ length [10; 6; 10] = 3%nat
  ∧ fst (settle_hand_vs_dealer (split_second ten_pair 11) [10; 6; 10])
    = 1%float
  ∧ (bet (split_second ten_pair 11) * BLACKJACK_PAYOUT)%float = 1.5%float
  ∧ PrimFloat.eqb 1 1.5 = false.
Proof. vm_compute. repeat split. Qed.

(** ** Rounds with a split *)

(** C1 (the code departs from the claim). The player is dealt 8, 8 against
    10, 7 and splits; the hand at index 0 becomes 8, 3 and the new hand 8, 5.
    The loop goes on at index 1: the policy is asked about 8, 8 and about
    8, 5 only, and the round ends with the hand 8, 3 not finished. *)
Theorem split_source_left_unfinished :
  view (play_round [5; 3; 7; 10; 8; 8] split_else_stand 0%nat 1%float true)
  = Some ([([8; 3], false, Some (-1)%float); ([8; 5], true, Some (-1)%float)],
          [(0%nat, [8; 8]); (1%nat, [8; 5])],
          [], 2%nat).
Proof. vm_compute. reflexivity. Qed.

(** C2 (the code departs from the claim). From a shoe of eights with a
    policy that always splits: the first two splits are carried out, the
    third is refused with three hands on the table, and the refused split
    draws no card: the three hands hold two cards each, eight cards were
    dealt to the player and the dealer and one more drawn by the dealer. *)
Theorem third_split_refused_without_hit :
  view (play_round [8; 8; 8; 8; 8; 8; 8; 8; 8; 8; 8; 8] split_policy 0%nat
          1%float true)
  = Some ([([8; 8], false, Some 1%float); ([8; 8], false, Some 1%float);
           ([8; 8], false, Some 1%float)],
          [(0%nat, [8; 8]); (1%nat, [8; 8]); (2%nat, [8; 8])],
          [8; 8; 8], 3%nat).
Proof. vm_compute. reflexivity. Qed.

(** * Properties of the further code *)

(** ** The shoe that [create_shoe] builds *)

Lemma count_app (c : Z) (l k : list Z) :
  count c (l ++ k) = (count c l + count c k)%nat.
Proof. unfold count. by rewrite List.filter_app, length_app. Qed.

Lemma count_cons (c x : Z) (l : list Z) :
  count c (x :: l) = ((if (c =? x)%Z then 1 else 0) + count c l)%nat.
Proof. unfold count. simpl. by destruct (c =? x). Qed.

Lemma count_perm (c : Z) (l k : list Z) : l ≡ₚ k → count c l = count c k.
Proof.
  induction 1 as [|x l k _ IH|x y l|l k m _ IH1 _ IH2].
  - reflexivity.
  - by rewrite !count_cons, IH.
  - rewrite !count_cons. lia.
  - congruence.
Qed.

Lemma sum_app (l k : list Z) : sum (l ++ k) = sum l + sum k.
Proof. unfold sum. induction l as [|x l IH]; simpl; lia. Qed.

Lemma sum_perm (l k : list Z) : l ≡ₚ k → sum l = sum k.
Proof.
  unfold sum.
  induction 1 as [|x l k _ IH|x y l|l k m _ IH1 _ IH2]; simpl; lia.
Qed.

Lemma count_list_mul (c : Z) (l : list Z) (n : Z) :
  count c (list_mul l n) = (Z.to_nat n * count c l)%nat.
Proof.
  unfold list_mul. induction (Z.to_nat n) as [|k IH]; simpl; [done|].
  rewrite count_app, IH. lia.
Qed.

Lemma length_list_mul {A : Type} (l : list A) (n : Z) :
  length (list_mul l n) = (Z.to_nat n * length l)%nat.
Proof.
  unfold list_mul. induction (Z.to_nat n) as [|k IH]; simpl; [done|].
  rewrite length_app, IH. lia.
Qed.

Lemma Forall_list_mul {A : Type} (P : A → Prop) (l : list A) (n : Z) :
  Forall P l → Forall P (list_mul l n).
Proof.
  intros Hl. unfold list_mul.
  induction (Z.to_nat n) as [|k IH]; simpl; [constructor|].
  by apply Forall_app.
Qed.

Lemma extend_deck_four :
  extend_deck 4 [] = list_mul [2; 3; 4; 5; 6; 7; 8; 9; 10; 10; 10; 10; 11] 4.
Proof. reflexivity. Qed.

Lemma count_suit (c : Z) :
  count c [2; 3; 4; 5; 6; 7; 8; 9; 10; 10; 10; 10; 11]
  = if c =? 10 then 4%nat
    else if (2 <=? c) && (c <=? 11) then 1%nat else 0%nat.
Proof.
  rewrite !count_cons. change (count c []) with 0%nat.
  repeat match goal with
  | |- context [c =? ?k] =>
    destruct (Z.eqb_spec c k) as [->|?]; [reflexivity|]
  end.
  destruct (Z.leb_spec 2 c), (Z.leb_spec c 11); simpl; lia.
Qed.

Lemma count_deck (c : Z) :
  count c (extend_deck 4 [])
  = if c =? 10 then 16%nat
    else if (2 <=? c) && (c <=? 11) then 4%nat else 0%nat.
Proof.
  rewrite extend_deck_four, count_list_mul, count_suit.
  destruct (c =? 10); [reflexivity|].
  by destruct ((2 <=? c) && (c <=? 11)).
Qed.

(** X1. For a [shuffle] that permutes its list, [create_shoe] returns
    [52 * num_decks] cards (none for a count of decks below 1), every one
    between 2 and 11: per deck sixteen 10s, four Aces and four of each rank
    from 2 to 9. *)
Theorem create_shoe_composition (shuffle : list Z → list Z) (num_decks : Z) :
  (∀ l, shuffle l ≡ₚ l) →
  length (create_shoe shuffle num_decks) = (52 * Z.to_nat num_decks)%nat
  ∧ Forall (λ c, 2 ≤ c ≤ 11) (create_shoe shuffle num_decks)
  ∧ count 10 (create_shoe shuffle num_decks) = (16 * Z.to_nat num_decks)%nat
  ∧ count 11 (create_shoe shuffle num_decks) = (4 * Z.to_nat num_decks)%nat
  ∧ ∀ r, 2 ≤ r ≤ 9 →
      count r (create_shoe shuffle num_decks) = (4 * Z.to_nat num_decks)%nat.
Proof.
  intros Hperm. unfold create_shoe. cbv zeta.
  split; [|split].
  - rewrite (Permutation_length (Hperm _)), length_list_mul.
    rewrite extend_deck_four, length_list_mul. simpl. lia.
  - rewrite (Hperm _). apply Forall_list_mul.
    rewrite extend_deck_four. apply Forall_list_mul.
    repeat (apply Forall_cons; split; [lia|]). apply Forall_nil_2.
  - assert (Hcount : ∀ c,
      count c (shuffle (list_mul (extend_deck 4 []) num_decks))
      = (Z.to_nat num_decks * count c (extend_deck 4 []))%nat).
    { intros c. by rewrite (count_perm c _ _ (Hperm _)), count_list_mul. }
    split; [|split].
    + rewrite Hcount, count_deck. simpl. lia.
    + rewrite Hcount, count_deck. simpl. lia.
    + intros r Hr. rewrite Hcount, count_deck.
      destruct (Z.eqb_spec r 10); [lia|].
      destruct (Z.leb_spec 2 r), (Z.leb_spec r 11); simpl; lia.
Qed.

Lemma create_shoe_composition_witness :
  length (create_shoe (@rev Z) 6) = (52 * Z.to_nat 6)%nat
  ∧ Forall (λ c, 2 ≤ c ≤ 11) (create_shoe (@rev Z) 6)
  ∧ count 10 (create_shoe (@rev Z) 6) = (16 * Z.to_nat 6)%nat
  ∧ count 11 (create_shoe (@rev Z) 6) = (4 * Z.to_nat 6)%nat
  ∧ ∀ r, 2 ≤ r ≤ 9 → count r (create_shoe (@rev Z) 6) = (4 * Z.to_nat 6)%nat.
Proof.
  apply (create_shoe_composition (@rev Z) 6).
  intros l. apply Permutation_sym, Permutation_rev.
Defined.

(** ** Hand evaluation *)

(** X2. The value of a hand does not depend on the order of its cards. *)
Theorem hand_value_perm (hand hand' : list Z) :
  hand ≡ₚ hand' → hand_value hand = hand_value hand'.
Proof.
  intros Hperm. unfold hand_value.
  by rewrite (sum_perm _ _ Hperm), (count_perm 11 _ _ Hperm).
Qed.

Lemma hand_value_perm_witness :
  hand_value [10; 11; 5] = hand_value [11; 5; 10].
Proof.
  apply (hand_value_perm [10; 11; 5] [11; 5; 10]).
  apply (perm_trans (l' := [11; 10; 5])); [apply perm_swap|].
  apply perm_skip, perm_swap.
Defined.

(** X3. The total lies between the sum with every Ace at 1 and the sum with
    every Ace at 11, and it exceeds 21 only when the hand does so with every
    Ace at 1: a bust that can be avoided is avoided. *)
Theorem hand_value_bust_iff (hand : list Z) :
  sum hand - 10 * Z.of_nat (count 11 hand) ≤ fst (hand_value hand) ≤ sum hand
  ∧ (21 < fst (hand_value hand)
     ↔ 21 < sum hand - 10 * Z.of_nat (count 11 hand))
  ∧ (21 < fst (hand_value hand) → snd (hand_value hand) = false).
Proof.
  unfold hand_value.
  destruct (downgrade_spec (sum hand) (count 11 hand))
    as (k & Hk & -> & Hbefore & Hstop).
  simpl. split; [lia|]. split.
  - split; [|lia]. intros Hbust.
    destruct (decide (k < count 11 hand)%nat); lia.
  - intros Hbust. apply andb_false_intro2. by apply Z.leb_gt.
Qed.

Lemma two_cards_total (a b : Z) :
  2 ≤ a ≤ 11 → 2 ≤ b ≤ 11 →
  fst (hand_value [a; b]) = if (a =? 11) && (b =? 11) then 12 else a + b.
Proof.
  intros Ha Hb. unfold hand_value. rewrite !count_cons.
  change (count 11 []) with 0%nat. unfold sum. cbn [foldr].
  destruct (Z.eqb_spec 11 a) as [<-|], (Z.eqb_spec 11 b) as [<-|];
    cbn [Nat.add downgrade].
  - reflexivity.
  - destruct (Z.eqb_spec b 11); [lia|].
    destruct (Z.ltb_spec 21 (11 + (b + 0))); simpl; lia.
  - destruct (Z.eqb_spec a 11); [lia|].
    destruct (Z.ltb_spec 21 (a + (11 + 0))); simpl; lia.
  - destruct (Z.eqb_spec a 11); [lia|]. simpl. lia.
Qed.

(** X4. On cards between 2 and 11, [is_blackjack] holds of exactly the two
    hands made of an Ace and a ten-valued card, in either order. *)
Theorem is_blackjack_iff (hand : list Z) :
  Forall (λ c, 2 ≤ c ≤ 11) hand →
  is_blackjack hand = true ↔ hand = [11; 10] ∨ hand = [10; 11].
Proof.
  intros Hrange. split.
  - unfold is_blackjack.
    destruct hand as [|a [|b [|? ?]]]; simpl negb; cbv iota; try discriminate.
    inversion Hrange as [|? ? Ha Hrest]; subst.
    inversion Hrest as [|? ? Hb _]; subst.
    rewrite (two_cards_total a b Ha Hb). intros H21%Z.eqb_eq.
    destruct (Z.eqb_spec a 11), (Z.eqb_spec b 11); simpl in H21; subst;
      try lia.
    + left. do 2 f_equal. lia.
    + right. f_equal. lia.
  - by intros [-> | ->].
Qed.

Lemma is_blackjack_iff_witness :
  is_blackjack [10; 11] = true ↔ [10; 11] = [11; 10] ∨ [10; 11] = [10; 11].
Proof.
  apply (is_blackjack_iff [10; 11]).
  repeat constructor; lia.
Defined.

(** ** The dealer's final total *)

Lemma dealer_stands_S17 (dealer_cards : list Z) :
  dealer_stands false dealer_cards = true
  ↔ 17 ≤ fst (hand_value dealer_cards).
Proof.
  unfold dealer_stands. destruct (hand_value dealer_cards) as [total soft].
  simpl. repeat case_bool_decide; simpl; split; intros; try done; lia.
Qed.

Lemma count_snoc (c x : Z) (l : list Z) :
  count c (l ++ [x]) = (count c l + (if (c =? x)%Z then 1 else 0))%nat.
Proof. rewrite count_app, count_cons. unfold count. simpl. lia. Qed.

(** A hand of at most 16 that takes one more card does not pass 26. *)
Lemma hand_value_after_draw (hand : list Z) (c : Z) :
  fst (hand_value hand) ≤ 16 → 0 ≤ c ≤ 11 →
  fst (hand_value (hand ++ [c])) ≤ 26.
Proof.
  intros Hlow Hc. unfold hand_value in *.
  rewrite sum_app, count_snoc.
  replace (sum [c]) with c by (unfold sum; simpl; lia).
  destruct (downgrade_spec (sum hand) (count 11 hand))
    as (k & Hk & Heq & Hbefore & Hstop).
  rewrite Heq in Hlow. simpl in Hlow.
  destruct (downgrade_spec (sum hand + c)
              (count 11 hand + (if 11 =? c then 1 else 0)))
    as (k' & Hk' & -> & Hbefore' & Hstop').
  simpl.
  assert (Hge : (k ≤ k')%nat).
  { destruct (decide (k ≤ k')%nat) as [|Hlt]; [done|].
    specialize (Hbefore k'). destruct (11 =? c); lia. }
  destruct (Z.eqb_spec 11 c) as [<-|Hne]; [|lia].
  destruct (decide (k = k')) as [<-|]; lia.
Qed.

(** X5. When [play_dealer] returns, the dealer's total is at least 17; a
    dealer already at 17 or more has drawn nothing; and a dealer who started
    below 17, drawing from a shoe of cards between 0 and 11, ends at 26 or
    less. *)
Theorem play_dealer_total (shoe dealer_cards shoe' dealer_cards' : list Z) :
  play_dealer shoe dealer_cards = Ok (shoe', dealer_cards') →
  17 ≤ fst (hand_value dealer_cards')
  ∧ (17 ≤ fst (hand_value dealer_cards) →
     shoe' = shoe ∧ dealer_cards' = dealer_cards)
  ∧ (fst (hand_value dealer_cards) < 17 →
     Forall (λ c, 0 ≤ c ≤ 11) shoe →
     (length dealer_cards < length dealer_cards')%nat
     ∧ fst (hand_value dealer_cards') ≤ 26).
Proof.
  intros Hplay. unfold play_dealer, DEALER_HITS_SOFT_17 in Hplay.
  pose proof (play_dealer_result false shoe dealer_cards) as Hrun.
  rewrite Hplay in Hrun.
  destruct Hrun as (drawn & Hshoe & Hcards & Hfinal & Hbefore).
  apply dealer_stands_S17 in Hfinal. split; [done|]. split.
  - intros Hstand. destruct drawn as [|c drawn].
    + rewrite app_nil_r in *. by subst.
    + specialize (Hbefore 0%nat ltac:(simpl; lia)). simpl in Hbefore.
      rewrite app_nil_r in Hbefore.
      apply dealer_stands_S17 in Hstand. congruence.
  - intros Hlow Hrange.
    destruct drawn as [|c drawn _] using rev_ind.
    { rewrite app_nil_r in Hcards. subst. lia. }
    split.
    { rewrite Hcards, !length_app. simpl. lia. }
    specialize (Hbefore (length drawn)
                  ltac:(rewrite length_app; simpl; lia)).
    rewrite take_app_length in Hbefore.
    assert (Hprev : fst (hand_value (dealer_cards ++ drawn)) ≤ 16).
    { destruct (decide (17 ≤ fst (hand_value (dealer_cards ++ drawn))))
        as [Hge|]; [|lia].
      apply dealer_stands_S17 in Hge. congruence. }
    rewrite Hcards, app_assoc. apply hand_value_after_draw; [done|].
    rewrite Forall_forall in Hrange. apply Hrange.
    rewrite Hshoe, rev_app_distr. simpl.
    apply elem_of_app. right. apply elem_of_cons. by left.
Qed.

Lemma play_dealer_total_witness :
  17 ≤ fst (hand_value [7; 9; 3])
  ∧ (17 ≤ fst (hand_value [7; 9]) → [4; 10] = [4; 10; 3] ∧ [7; 9; 3] = [7; 9])
  ∧ (fst (hand_value [7; 9]) < 17 →
     Forall (λ c, 0 ≤ c ≤ 11) [4; 10; 3] →
     (length [7; 9]%Z < length [7; 9; 3]%Z)%nat
     ∧ fst (hand_value [7; 9; 3]) ≤ 26).
Proof.
  apply (play_dealer_total [4; 10; 3] [7; 9] [4; 10] [7; 9; 3]).
  reflexivity.
Defined.

(** ** The count of split-marked hands *)

Lemma existing_splits_app (l k : list HandState) :
  existing_splits (l ++ k) = (existing_splits l + existing_splits k)%nat.
Proof. unfold existing_splits. by rewrite List.filter_app, length_app. Qed.

Lemma existing_splits_cons (h : HandState) (l : list HandState) :
  existing_splits (h :: l)
  = ((if from_split h then 1 else 0) + existing_splits l)%nat.
Proof. unfold existing_splits. simpl. by destruct (from_split h). Qed.

Lemma from_split_split_first (h : HandState) (c : Z) :
  from_split (split_first h c) = true.
Proof. unfold from_split, split_first. simpl. by rewrite lookup_insert_eq. Qed.

Lemma from_split_split_second (h : HandState) (c : Z) :
  from_split (split_second h c) = true.
Proof. unfold from_split, split_second. simpl. by rewrite lookup_singleton_eq. Qed.

(** X6. What [apply_action_split] does to a hand in the list. It changes
    nothing when the hand is no pair or when [MAX_SPLITS] hands are already
    marked as split. Otherwise it raises on a shoe of fewer than two cards,
    and else takes the last two cards, adds one hand, and raises the number
    of marked hands by two, or by one when the hand was marked already. *)
Theorem apply_action_split_cases (shoe : list Z) (st : RoundState) (i : nat)
    (hand : HandState) :
  player_hands st !! i = Some hand →
  match apply_action_split shoe st i with
  | Ok (shoe', st') =>
    (shoe' = shoe ∧ st' = st
     ∧ (can_split (cards hand) = false
        ∨ (MAX_SPLITS ≤ existing_splits (player_hands st))%nat))
    ∨ (can_split (cards hand) = true
       ∧ (existing_splits (player_hands st) < MAX_SPLITS)%nat
       ∧ (∃ c1 c2, shoe = shoe' ++ [c2; c1])
       ∧ length (player_hands st') = S (length (player_hands st))
       ∧ existing_splits (player_hands st')
         = (existing_splits (player_hands st)
            + (if from_split hand then 1 else 2))%nat
       ∧ dealer_cards st' = dealer_cards st ∧ logs st' = logs st)
  | Raise e =>
    e = ShoeEmpty ∧ (length shoe < 2)%nat
    ∧ can_split (cards hand) = true
    ∧ (existing_splits (player_hands st) < MAX_SPLITS)%nat
  end.
Proof.
  intros Hi.
  destruct (can_split (cards hand)) eqn:Hpair.
  2: { rewrite (apply_action_split_refused _ _ _ _ Hi); auto. }
  destruct (Nat.leb_spec MAX_SPLITS (existing_splits (player_hands st)))
    as [Hcap|Hcap].
  { rewrite (apply_action_split_refused _ _ _ _ Hi); auto. }
  destruct shoe as [|c1 shoe _] using rev_ind.
  { unfold apply_action_split. rewrite Hi, Hpair. cbn [negb].
    destruct (Nat.leb_spec MAX_SPLITS (existing_splits (player_hands st)));
      [lia|]. simpl. repeat split; [lia|done]. }
  destruct shoe as [|c2 shoe _] using rev_ind.
  { unfold apply_action_split. rewrite Hi, Hpair. cbn [negb].
    destruct (Nat.leb_spec MAX_SPLITS (existing_splits (player_hands st)));
      [lia|]. unfold mbind, outcome_bind.
    rewrite (draw_card_app [] c1). simpl. repeat split; [lia|done]. }
  rewrite <- app_assoc. simpl "++".
  rewrite (apply_action_split_ok _ _ _ _ _ _ Hi Hpair Hcap).
  right. split; [done|]. split; [done|]. split; [by exists c1, c2|].
  pose proof (lookup_lt_Some _ _ _ Hi) as Hlt.
  cbn [set_player_hands player_hands dealer_cards logs].
  split; [|split; [|done]].
  - rewrite !length_app, length_take, length_drop. simpl. lia.
  - rewrite <- (take_drop_middle (player_hands st) i hand Hi) at 3.
    rewrite !existing_splits_app, !existing_splits_cons.
    rewrite from_split_split_first, from_split_split_second.
    destruct (from_split hand); simpl; lia.
Qed.

Lemma apply_action_split_cases_witness :
  match apply_action_split [4; 5; 10] ace_pair_round 0 with
  | Ok (shoe', st') =>
    (shoe' = [4; 5; 10] ∧ st' = ace_pair_round
     ∧ (can_split [11; 11] = false
        ∨ (MAX_SPLITS ≤ existing_splits (player_hands ace_pair_round))%nat))
    ∨ (can_split [11; 11] = true
       ∧ (existing_splits (player_hands ace_pair_round) < MAX_SPLITS)%nat
       ∧ (∃ c1 c2, [4; 5; 10] = shoe' ++ [c2; c1])
       ∧ length (player_hands st')
         = S (length (player_hands ace_pair_round))
       ∧ existing_splits (player_hands st')
         = (existing_splits (player_hands ace_pair_round)
            + (if from_split
                    (mkHandState [11; 11]%Z 1%float false false false false
                       None ∅)
               then 1 else 2))%nat
       ∧ dealer_cards st' = dealer_cards ace_pair_round
       ∧ logs st' = logs ace_pair_round)
  | Raise e =>
    e = ShoeEmpty ∧ (length [4; 5; 10]%Z < 2)%nat
    ∧ can_split [11; 11] = true
    ∧ (existing_splits (player_hands ace_pair_round) < MAX_SPLITS)%nat
  end.
Proof.
  apply (apply_action_split_cases [4; 5; 10] ace_pair_round 0
           (mkHandState [11; 11] 1%float false false false false None ∅)).
  reflexivity.
Defined.

(** ** The action loop, step by step *)

Lemma apply_action_hit_app (shoe : list Z) (c : Z) (h : HandState) :
  apply_action_hit (shoe ++ [c]) h
  = Ok (shoe,
        if 21 <? fst (hand_value (cards h ++ [c]))
        then set_finished (set_busted (set_cards h (cards h ++ [c])) true) true
        else set_cards h (cards h ++ [c])).
Proof.
  unfold apply_action_hit, mbind, outcome_bind. rewrite draw_card_app.
  cbv beta iota zeta. cbn [cards set_cards].
  destruct (hand_value (cards h ++ [c])) as [total soft]. simpl.
  by destruct (21 <? total).
Qed.

Lemma apply_action_double_app (shoe : list Z) (c : Z) (h : HandState) :
  length (cards h) = 2%nat →
  apply_action_double (shoe ++ [c]) h
  = Ok (shoe,
        mkHandState (cards h ++ [c]) (bet h * 2)%float true
          (if 21 <? fst (hand_value (cards h ++ [c])) then true
           else is_busted h)
          (is_blackjack_flag h) (is_split_ace h) (result h) (meta h)).
Proof.
  intros Hlen. unfold apply_action_double, mbind, outcome_bind.
  rewrite Hlen, draw_card_app. cbv beta iota zeta. simpl negb. cbv iota.
  cbn [cards set_cards set_bet].
  destruct (hand_value (cards h ++ [c])) as [total soft]. simpl.
  by destruct (21 <? total).
Qed.

Section LoopSteps.
Context {PS : Type} (policy : PolicyFunc PS) (log : bool) (dealer_up : Z).

Lemma hand_loop_steps (fuel : nat) :
  ∀ (i : nat) (st : RoundState) (ps : PS) (st' : RoundState) (ps' : PS),
    hand_loop policy log dealer_up fuel i st ps = Ok (st', ps') →
    rtc (state_step dealer_up) st st'.
Proof.
  induction fuel as [|fuel IH]; intros i st ps st' ps' Hrun; [discriminate|].
  cbn [hand_loop] in Hrun.
  destruct (player_hands st !! i) as [hand|] eqn:Hhand; [|discriminate].
  destruct (is_finished hand) eqn:Hfin.
  { injection Hrun as <- <-. apply rtc_refl. }
  destruct (hand_value (cards hand)) as [total is_soft] eqn:Hvalue.
  destruct (Z.ltb_spec 21 total) as [Hbust|Hlive].
  { injection Hrun as <- <-. apply rtc_once, ss_bust; try done.
    by rewrite Hvalue. }
  destruct (policy ps (cards hand) dealer_up _) as [answer ps1].
  cbv zeta in Hrun.
  match type of Hrun with context [log_step log st ?e] =>
    assert (Hlog : rtc (state_step dealer_up) st (log_step log st e));
    [|destruct (log_step_fields log st e) as (Hhands1 & Hshoe1 & Hdealer1);
      set (st1 := log_step log st e) in *]
  end.
  { unfold log_step. destruct log; [|apply rtc_refl]. apply rtc_once.
    pose proof (ss_log dealer_up st i hand answer Hhand Hfin) as Hstep.
    unfold step_for in Hstep. rewrite Hvalue in Hstep. by apply Hstep. }
  assert (Hhand1 : player_hands st1 !! i = Some hand) by by rewrite Hhands1.
  assert (Hstand : ∀ st' ps',
    hand_loop policy log dealer_up fuel i
      (set_hand st1 i (apply_action_stand hand)) ps1 = Ok (st', ps') →
    rtc (state_step dealer_up) st st').
  { intros st2 ps2 Hrest. etrans; [exact Hlog|].
    eapply rtc_l; [by apply (ss_finish dealer_up st1 i hand)|]. by eapply IH. }
  assert (Hhit : ∀ st' ps',
    ('(shoe', hand') ← apply_action_hit (shoe st1) hand;
     hand_loop policy log dealer_up fuel i
       (set_hand (set_shoe st1 shoe') i hand') ps1) = Ok (st', ps') →
    rtc (state_step dealer_up) st st').
  { intros st2 ps2 Hrest.
    destruct (apply_action_hit (shoe st1) hand) as [[shoe' hand']|e]
      eqn:Hhit; [|discriminate].
    etrans; [exact Hlog|].
    eapply rtc_l; [by eapply (ss_hit dealer_up st1 i hand)|]. by eapply IH. }
  destruct (String.eqb (upper answer) "H").
  { destruct (is_split_ace hand); [|by eapply Hhit]. by eapply Hstand. }
  destruct (String.eqb (upper answer) "S"); [by eapply Hstand|].
  destruct (String.eqb (upper answer) "D").
  { destruct (Nat.eqb_spec (length (cards hand)) 2) as [Hlen|];
      [|by eapply Hhit].
    destruct (apply_action_double (shoe st1) hand) as [[shoe' hand']|e]
      eqn:Hdouble; [|discriminate].
    etrans; [exact Hlog|].
    eapply rtc_l; [by eapply (ss_double dealer_up st1 i hand)|]. by eapply IH. }
  destruct (String.eqb (upper answer) "P").
  { destruct (can_split (cards hand)) eqn:Hpair; [|by eapply Hhit].
    destruct (apply_action_split (shoe st1) st1 i) as [[shoe' st2]|e]
      eqn:Hsplit; [|discriminate].
    injection Hrun as <- <-.
    etrans; [exact Hlog|]. apply rtc_once. by eapply (ss_split dealer_up st1 i hand). }
  destruct (String.eqb (upper answer) "R"); by eapply Hstand.
Qed.

Lemma hands_loop_steps (fuel : nat) :
  ∀ (i : nat) (st : RoundState) (ps : PS) (st' : RoundState) (ps' : PS),
    hands_loop policy log dealer_up fuel i st ps = Ok (st', ps') →
    rtc (state_step dealer_up) st st'.
Proof.
  induction fuel as [|fuel IH]; intros i st ps st' ps' Hrun; [discriminate|].
  cbn [hands_loop] in Hrun.
  destruct (Nat.ltb i (length (player_hands st))).
  2: { injection Hrun as <- <-. apply rtc_refl. }
  destruct (player_hands st !! i) as [hand|]; [|discriminate].
  destruct (is_finished hand); [by eapply IH|].
  destruct (hand_loop policy log dealer_up (hand_fuel st) i st ps)
    as [[st1 ps1]|e] eqn:Hinner; [|discriminate].
  etrans; [by eapply hand_loop_steps|]. by eapply IH.
Qed.
End LoopSteps.

(** [play_round] taken apart: the deal, then either the immediate
    settlement of a natural or the action loop, the dealer and the
    settlement of every hand. *)
Lemma play_round_inv {PS : Type} (shoe : list Z) (policy : PolicyFunc PS)
    (ps ps' : PS) (base_bet : float) (log : bool) (st : RoundState) :
  play_round shoe policy ps base_bet log = Ok (st, ps') →
  ∃ rest p1 p2 d1 d2,
    shoe = rest ++ [d2; d1; p2; p1]
    ∧ ((is_blackjack [p1; p2] || is_blackjack [d1; d2] = true
        ∧ ps' = ps
        ∧ ∃ r,
            r = (if is_blackjack [p1; p2] && negb (is_blackjack [d1; d2])
                 then (base_bet * BLACKJACK_PAYOUT)%float
                 else if is_blackjack [d1; d2] && negb (is_blackjack [p1; p2])
                 then (- base_bet)%float
                 else 0%float)
            ∧ st = set_hand (dealt_state rest p1 p2 d1 d2 base_bet log) 0
                     (set_result (initial_hand p1 p2 base_bet) (Some r)))
       ∨ (is_blackjack [p1; p2] || is_blackjack [d1; d2] = false
          ∧ ∃ st1 st2,
              rtc (state_step d1) (dealt_state rest p1 p2 d1 d2 base_bet log) st1
              ∧ dealer_phase st1 = Ok st2
              ∧ st = settle_all st2)).
Proof.
  unfold play_round, mbind, outcome_bind.
  destruct (draw_card shoe) as [[p1 s1]|e] eqn:H1; [|discriminate].
  destruct (draw_card s1) as [[p2 s2]|e] eqn:H2; [|discriminate].
  destruct (draw_card s2) as [[d1 s3]|e] eqn:H3; [|discriminate].
  destruct (draw_card s3) as [[d2 rest]|e] eqn:H4; [|discriminate].
  apply draw_card_inv in H1, H2, H3, H4.
  intros Hrun. exists rest, p1, p2, d1, d2.
  split; [subst; by rewrite <- !app_assoc|].
  cbv zeta in Hrun. cbn [is_blackjack_flag] in Hrun.
  fold (initial_hand p1 p2 base_bet) in Hrun.
  fold (dealt_state rest p1 p2 d1 d2 base_bet log) in Hrun.
  destruct (is_blackjack [p1; p2] || is_blackjack [d1; d2]).
  { left. injection Hrun as <- <-. split; [done|]. split; [done|].
    by eexists. }
  right. split; [done|].
  destruct (hands_loop policy log d1 _ 0%nat _ ps) as [[st1 ps1]|e]
    eqn:Hloop; [|discriminate].
  destruct (dealer_phase st1) as [st2|e] eqn:Hdealer; [|discriminate].
  injection Hrun as <- <-. exists st1, st2.
  split; [by eapply hands_loop_steps|]. done.
Qed.

(** ** No card is lost *)

Lemma cards_of_app (l k : list HandState) :
  cards_of (l ++ k) = cards_of l ++ cards_of k.
Proof. unfold cards_of. by rewrite fmap_app, concat_app. Qed.

Lemma cards_of_cons (h : HandState) (l : list HandState) :
  cards_of (h :: l) = cards h ++ cards_of l.
Proof. reflexivity. Qed.

Lemma cards_of_lookup (hands : list HandState) (i : nat) (h : HandState) :
  hands !! i = Some h →
  cards_of hands
  ≡ₚ cards h ++ cards_of (take i hands) ++ cards_of (drop (S i) hands).
Proof.
  intros Hi. rewrite <- (take_drop_middle hands i h Hi) at 1.
  rewrite cards_of_app, cards_of_cons. solve_Permutation.
Qed.

Lemma cards_of_insert (hands : list HandState) (i : nat) (h h' : HandState) :
  hands !! i = Some h →
  cards_of (<[i := h']> hands)
  ≡ₚ cards h' ++ cards_of (take i hands) ++ cards_of (drop (S i) hands).
Proof.
  intros Hi. rewrite insert_take_drop by by eapply lookup_lt_Some.
  rewrite cards_of_app, cards_of_cons. solve_Permutation.
Qed.

Lemma can_split_pair (hand : list Z) :
  can_split hand = true → ∃ a, hand = [a; a].
Proof.
  destruct hand as [|a [|b [|? ?]]]; simpl; try discriminate.
  intros ->%Z.eqb_eq. by exists b.
Qed.

Lemma state_step_cards (du : Z) (st st' : RoundState) :
  state_step du st st' → cards_in_play st' ≡ₚ cards_in_play st.
Proof.
  unfold cards_in_play.
  intros [st0 i0 h0 answer _ _ _|st0 i h Hi _ _|st0 i h Hi _|st0 i h shoe' h' Hi _ Hhit
         |st0 i h shoe' h' Hi _ Hlen Hdouble|st0 i h shoe' st1 Hi _ Hpair Hsplit].
  - reflexivity.
  - simpl. by rewrite (cards_of_insert _ _ _ _ Hi), (cards_of_lookup _ _ _ Hi).
  - simpl. by rewrite (cards_of_insert _ _ _ _ Hi), (cards_of_lookup _ _ _ Hi).
  - pose proof (apply_action_hit_inv (shoe st0) h) as Hinv.
    rewrite Hhit in Hinv. destruct Hinv as (c & Hshoe & Hh').
    simpl. rewrite (cards_of_insert _ _ _ _ Hi), (cards_of_lookup _ _ _ Hi).
    rewrite Hshoe.
    assert (cards h' = cards h ++ [c]) as -> by by destruct Hh' as [->| ->].
    solve_Permutation.
  - pose proof (apply_action_double_inv (shoe st0) h Hlen) as Hinv.
    rewrite Hdouble in Hinv. destruct Hinv as (c & Hshoe & _ & _ & Hcards).
    simpl. rewrite (cards_of_insert _ _ _ _ Hi), (cards_of_lookup _ _ _ Hi).
    rewrite Hshoe, Hcards. solve_Permutation.
  - pose proof (apply_action_split_inv (shoe st0) st0 i h Hi) as Hinv.
    rewrite Hsplit in Hinv.
    destruct Hinv as [[-> ->]|(c1 & c2 & Hshoe & _ & _ & ->)].
    + by destruct st0.
    + simpl. rewrite Hshoe, (cards_of_lookup _ _ _ Hi).
      rewrite !cards_of_app, !cards_of_cons.
      destruct (can_split_pair _ Hpair) as [a Ha].
      unfold split_first, split_second. rewrite Ha. simpl.
      solve_Permutation.
Qed.

Lemma state_step_shoe (du : Z) (st st' : RoundState) :
  state_step du st st' →
  dealer_cards st' = dealer_cards st ∧ ∃ drawn, shoe st = shoe st' ++ drawn.
Proof.
  intros [st0 i0 h0 answer _ _ _|st0 i h Hi _ _|st0 i h Hi _|st0 i h shoe' h' Hi _ Hhit
         |st0 i h shoe' h' Hi _ Hlen Hdouble|st0 i h shoe' st1 Hi _ Hpair Hsplit].
  - split; [done|]. exists []. by rewrite app_nil_r.
  - split; [done|]. exists []. by rewrite app_nil_r.
  - split; [done|]. exists []. by rewrite app_nil_r.
  - pose proof (apply_action_hit_inv (shoe st0) h) as Hinv.
    rewrite Hhit in Hinv. destruct Hinv as (c & Hshoe & _).
    split; [done|]. by exists [c].
  - pose proof (apply_action_double_inv (shoe st0) h Hlen) as Hinv.
    rewrite Hdouble in Hinv. destruct Hinv as (c & Hshoe & _).
    split; [done|]. by exists [c].
  - pose proof (apply_action_split_inv (shoe st0) st0 i h Hi) as Hinv.
    rewrite Hsplit in Hinv.
    destruct Hinv as [[-> ->]|(c1 & c2 & Hshoe & _ & _ & ->)].
    + split; [done|]. exists []. by rewrite app_nil_r.
    + split; [done|]. by exists [c2; c1].
Qed.

Lemma rtc_state_step_cards (du : Z) (st st' : RoundState) :
  rtc (state_step du) st st' →
  cards_in_play st' ≡ₚ cards_in_play st
  ∧ dealer_cards st' = dealer_cards st
  ∧ ∃ drawn, shoe st = shoe st' ++ drawn.
Proof.
  induction 1 as [st|st st1 st2 Hstep _ (IHcards & IHdealer & drawn & IHshoe)].
  - repeat split; [done|]. exists []. by rewrite app_nil_r.
  - destruct (state_step_shoe _ _ _ Hstep) as (Hdealer & drawn1 & Hshoe).
    split; [by rewrite IHcards, (state_step_cards _ _ _ Hstep)|].
    split; [congruence|].
    exists (drawn ++ drawn1). by rewrite Hshoe, IHshoe, app_assoc.
Qed.

Lemma dealer_phase_cards (st st' : RoundState) :
  dealer_phase st = Ok st' →
  player_hands st' = player_hands st
  ∧ logs st' = logs st
  ∧ ∃ drawn,
      shoe st = shoe st' ++ rev drawn
      ∧ dealer_cards st' = dealer_cards st ++ drawn
      ∧ (existsb (λ h, negb (is_busted h)) (player_hands st) = false →
         drawn = [])
      ∧ (existsb (λ h, negb (is_busted h)) (player_hands st) = true →
         17 ≤ fst (hand_value (dealer_cards st'))).
Proof.
  unfold dealer_phase.
  destruct (existsb _ (player_hands st)).
  - unfold play_dealer, DEALER_HITS_SOFT_17.
    pose proof (play_dealer_result false (shoe st) (dealer_cards st)) as Hrun.
    destruct (play_dealer_with _ _ _) as [[shoe' dealer']|e]; [|discriminate].
    simpl. intros [= <-]. simpl.
    destruct Hrun as (drawn & Hshoe & Hcards & Hfinal & _).
    do 2 (split; [done|]). exists drawn.
    repeat split; try done. intros _. by apply dealer_stands_S17.
  - intros [= <-]. do 2 (split; [done|]). exists [].
    rewrite !app_nil_r. repeat split; done.
Qed.

Lemma settle_all_fields (st : RoundState) :
  shoe (settle_all st) = shoe st
  ∧ dealer_cards (settle_all st) = dealer_cards st
  ∧ logs (settle_all st) = logs st
  ∧ Forall2 same_but_result (player_hands st) (player_hands (settle_all st)).
Proof.
  repeat split. unfold settle_all. simpl.
  apply Forall2_fmap_r, Forall_Forall2_diag, Forall_forall.
  intros h _. apply settle_same_but_result.
Qed.

Lemma same_but_result_cards_of (hands hands' : list HandState) :
  Forall2 same_but_result hands hands' → cards_of hands' = cards_of hands.
Proof.
  induction 1 as [|h h' hands hands' [r ->] _ IH]; [done|].
  by rewrite !cards_of_cons, IH.
Qed.

Lemma play_round_cards_in_play {PS : Type} (shoe0 : list Z)
    (policy : PolicyFunc PS) (ps ps' : PS) (base_bet : float) (log : bool)
    (st : RoundState) :
  play_round shoe0 policy ps base_bet log = Ok (st, ps') →
  cards_in_play st ≡ₚ shoe0
  ∧ ∃ drawn, shoe0 = shoe st ++ drawn ∧ (4 ≤ length drawn)%nat.
Proof.
  intros Hround.
  destruct (play_round_inv _ _ _ _ _ _ _ Hround)
    as (rest & p1 & p2 & d1 & d2 & -> & Hcases).
  assert (Hall : cards_in_play st
                 ≡ₚ cards_in_play (dealt_state rest p1 p2 d1 d2 base_bet log)
                 ∧ ∃ drawn, rest = shoe st ++ drawn).
  { destruct Hcases as [(_ & _ & r & _ & ->)
                       |(_ & st1 & st2 & Hsteps & Hdealer & ->)].
    - split; [done|]. exists []. simpl. by rewrite app_nil_r.
    - apply rtc_state_step_cards in Hsteps
        as (Hcards & Hdealer1 & drawn1 & Hshoe1).
      apply dealer_phase_cards in Hdealer
        as (Hhands2 & _ & drawn2 & Hshoe2 & Hdealer2 & _).
      destruct (settle_all_fields st2) as (Hshoe3 & Hdealer3 & _ & Hhands3).
      split.
      + rewrite <- Hcards. unfold cards_in_play.
        rewrite Hshoe3, Hdealer3, (same_but_result_cards_of _ _ Hhands3).
        rewrite Hhands2, Hdealer2, Hshoe2, (Permutation_rev drawn2) at 1.
        solve_Permutation.
      + exists (rev drawn2 ++ drawn1).
        simpl in Hshoe1. by rewrite Hshoe3, Hshoe1, Hshoe2, app_assoc. }
  destruct Hall as (Hcards & drawn & Hrest). split.
  - rewrite Hcards. unfold cards_in_play. simpl. solve_Permutation.
  - exists (drawn ++ [d2; d1; p2; p1]).
    split; [by rewrite Hrest, app_assoc|]. rewrite length_app. simpl. lia.
Qed.

(** X7. The cards of a round that [play_round] returns are the cards of the
    shoe it was given: what is left of the shoe is the shoe less the cards
    taken off its end, and those are the cards of the hands and of the
    dealer, none lost and none made up. *)
Theorem play_round_cards {PS : Type} (shoe0 : list Z) (policy : PolicyFunc PS)
    (ps ps' : PS) (base_bet : float) (log : bool) (st : RoundState) :
  play_round shoe0 policy ps base_bet log = Ok (st, ps') →
  ∃ drawn,
    shoe0 = shoe st ++ drawn
    ∧ drawn ≡ₚ cards_of (player_hands st) ++ dealer_cards st
    ∧ (4 ≤ length drawn)%nat.
Proof.
  intros Hround.
  destruct (play_round_cards_in_play _ _ _ _ _ _ _ Hround)
    as (Hcards & drawn & Hshoe & Hlen).
  exists drawn. split; [done|]. split; [|done].
  apply (Permutation_app_inv_l (shoe st)).
  unfold cards_in_play in Hcards. by rewrite <- Hshoe, <- Hcards.
Qed.

Lemma play_round_cards_witness :
  ∃ drawn,
    [9; 7; 10; 6; 5] = shoe doubled_round ++ drawn
    ∧ drawn ≡ₚ cards_of (player_hands doubled_round)
               ++ dealer_cards doubled_round
    ∧ (4 ≤ length drawn)%nat.
Proof.
  apply (play_round_cards [9; 7; 10; 6; 5] double_policy 0%nat 1%nat 1%float
           false doubled_round).
  vm_compute. reflexivity.
Defined.

(** ** What holds of the hands of a round *)

Lemma hand_inv_unfinished (b : float) (h : HandState) :
  hand_inv b h → is_finished h = false →
  result h = None ∧ (2 ≤ length (cards h))%nat ∧ is_busted h = false
  ∧ is_split_ace h = false ∧ bet h = b.
Proof.
  intros (Hres & Hlen & Hbust & Hace & Hbet) Hunf.
  split; [done|]. split; [done|]. split; [|split].
  - destruct (is_busted h); [|done]. destruct Hbust; congruence.
  - destruct (is_split_ace h); [|done]. destruct Hace as (? & _); congruence.
  - destruct Hbet as [?|(_ & ? & _)]; congruence.
Qed.

Lemma hand_inv_hit (b : float) (h : HandState) (c : Z) :
  hand_inv b h → is_finished h = false →
  hand_inv b
    (if 21 <? fst (hand_value (cards h ++ [c]))
     then set_finished (set_busted (set_cards h (cards h ++ [c])) true) true
     else set_cards h (cards h ++ [c])).
Proof.
  intros Hinv Hunf.
  destruct (hand_inv_unfinished b h Hinv Hunf)
    as (Hres & Hlen & Hbust & Hace & Hbet).
  destruct (Z.ltb_spec 21 (fst (hand_value (cards h ++ [c]))));
    unfold hand_inv; simpl; rewrite ?length_app; simpl;
    repeat split; try done; try lia; try congruence; by left.
Qed.

Lemma hand_inv_double (b : float) (h : HandState) (c : Z) :
  hand_inv b h → is_finished h = false → length (cards h) = 2%nat →
  hand_inv b
    (mkHandState (cards h ++ [c]) (bet h * 2)%float true
       (if 21 <? fst (hand_value (cards h ++ [c])) then true else is_busted h)
       (is_blackjack_flag h) (is_split_ace h) (result h) (meta h)).
Proof.
  intros Hinv Hunf Hlen.
  destruct (hand_inv_unfinished b h Hinv Hunf)
    as (Hres & _ & Hbust & Hace & Hbet).
  unfold hand_inv; simpl. rewrite length_app, Hlen, Hbust, Hace, Hbet. simpl.
  repeat split; try done; try lia.
  - destruct (Z.ltb_spec 21 (fst (hand_value (cards h ++ [c])))); [done|].
    discriminate.
  - by right.
Qed.

Lemma hand_inv_split (b : float) (h : HandState) (c1 c2 : Z) :
  hand_inv b h → is_finished h = false →
  hand_inv b (split_first h c1) ∧ hand_inv b (split_second h c2).
Proof.
  intros Hinv Hunf.
  destruct (hand_inv_unfinished b h Hinv Hunf)
    as (Hres & _ & Hbust & Hace & Hbet).
  unfold hand_inv, split_first, split_second. simpl.
  rewrite Hres, Hbust, Hace, Hunf, Hbet.
  destruct (Z.eqb_spec (List.hd 0 (cards h)) 11);
    repeat split; try done; try lia; by left.
Qed.

Lemma state_step_hand_inv (du : Z) (b : float) (st st' : RoundState) :
  state_step du st st' →
  Forall (hand_inv b) (player_hands st) →
  Forall (hand_inv b) (player_hands st').
Proof.
  intros [st0 i0 h0 answer _ _ _|st0 i h Hi Hunf Hover|st0 i h Hi Hunf
         |st0 i h shoe' h' Hi Hunf Hhit
         |st0 i h shoe' h' Hi Hunf Hlen Hdouble
         |st0 i h shoe' st1 Hi Hunf Hpair Hsplit] Hall.
  - done.
  - apply Forall_insert; [done|].
    pose proof (Forall_lookup_1 _ _ _ _ Hall Hi) as Hinv.
    destruct (hand_inv_unfinished b h Hinv Hunf)
      as (Hres & Hlen & Hbust & Hace & Hbet).
    unfold hand_inv. simpl. rewrite Hace.
    repeat split; try done. by left.
  - apply Forall_insert; [done|].
    pose proof (Forall_lookup_1 _ _ _ _ Hall Hi) as Hinv.
    destruct (hand_inv_unfinished b h Hinv Hunf)
      as (Hres & Hlen & Hbust & Hace & Hbet).
    unfold hand_inv. simpl. rewrite Hace, Hbust.
    repeat split; try done. by left.
  - apply Forall_insert; [done|].
    pose proof (Forall_lookup_1 _ _ _ _ Hall Hi) as Hinv.
    pose proof (apply_action_hit_inv (shoe st0) h) as Hshape.
    rewrite Hhit in Hshape. destruct Hshape as (c & Hshoe & _).
    rewrite Hshoe, apply_action_hit_app in Hhit. injection Hhit as <-.
    by apply hand_inv_hit.
  - apply Forall_insert; [done|].
    pose proof (Forall_lookup_1 _ _ _ _ Hall Hi) as Hinv.
    pose proof (apply_action_double_inv (shoe st0) h Hlen) as Hshape.
    rewrite Hdouble in Hshape. destruct Hshape as (c & Hshoe & _).
    rewrite Hshoe, (apply_action_double_app _ _ _ Hlen) in Hdouble.
    injection Hdouble as <-. by apply hand_inv_double.
  - pose proof (apply_action_split_inv (shoe st0) st0 i h Hi) as Hinv.
    rewrite Hsplit in Hinv.
    destruct Hinv as [[-> ->]|(c1 & c2 & Hshoe & _ & _ & ->)]; [done|].
    simpl.
    destruct (hand_inv_split b h c1 c2 (Forall_lookup_1 _ _ _ _ Hall Hi) Hunf).
    apply Forall_app. split; [by apply Forall_take|].
    apply Forall_cons. split; [done|].
    apply Forall_cons. split; [done|]. by apply Forall_drop.
Qed.

Lemma existing_splits_all (hands : list HandState) :
  Forall (λ h, from_split h = true) hands →
  existing_splits hands = length hands.
Proof.
  induction 1 as [|h hands Hh _ IH]; [done|].
  rewrite existing_splits_cons, Hh, IH. simpl. lia.
Qed.

Lemma split_marks_insert (hands : list HandState) (i : nat) (h h' : HandState) :
  hands !! i = Some h → from_split h' = from_split h →
  split_marks hands → split_marks (<[i := h']> hands).
Proof.
  intros Hi Hmark [(h0 & -> & Hh0)|(Hall & Hlen)].
  - destruct i as [|i]; [|done]. injection Hi as ->.
    left. exists h'. split; [done|]. congruence.
  - right. split; [|by rewrite length_insert].
    apply Forall_insert; [done|].
    rewrite Hmark. by eapply (Forall_lookup_1 _ _ _ _ Hall).
Qed.

Lemma state_step_split_marks (du : Z) (st st' : RoundState) :
  state_step du st st' →
  split_marks (player_hands st) → split_marks (player_hands st').
Proof.
  intros [st0 i0 h0 answer _ _ _|st0 i h Hi Hunf Hover|st0 i h Hi Hunf
         |st0 i h shoe' h' Hi Hunf Hhit
         |st0 i h shoe' h' Hi Hunf Hlen Hdouble
         |st0 i h shoe' st1 Hi Hunf Hpair Hsplit] Hmarks.
  - done.
  - by eapply split_marks_insert.
  - by eapply split_marks_insert.
  - eapply split_marks_insert; [done| |done].
    pose proof (apply_action_hit_inv (shoe st0) h) as Hshape.
    rewrite Hhit in Hshape. by destruct Hshape as (c & _ & [->| ->]).
  - eapply split_marks_insert; [done| |done].
    pose proof (apply_action_double_inv (shoe st0) h Hlen) as Hshape.
    rewrite Hdouble in Hshape. destruct Hshape as (c & Hshoe & _).
    rewrite Hshoe, (apply_action_double_app _ _ _ Hlen) in Hdouble.
    by injection Hdouble as <-.
  - pose proof (apply_action_split_inv (shoe st0) st0 i h Hi) as Hinv.
    rewrite Hsplit in Hinv.
    destruct Hinv as [[-> ->]|(c1 & c2 & Hshoe & _ & Hcap & ->)]; [done|].
    cbn [set_shoe set_player_hands player_hands]. right.
    pose proof (lookup_lt_Some _ _ _ Hi) as Hlt.
    assert (Hlen : length (take i (player_hands st0)
                           ++ [split_first h c1; split_second h c2]
                           ++ drop (S i) (player_hands st0))
                   = S (length (player_hands st0))).
    { rewrite !length_app, length_take, length_drop. simpl. lia. }
    rewrite Hlen.
    destruct Hmarks as [(h0 & Heq & _)|(Hall & Hbounds)].
    + rewrite Heq in *. destruct i as [|i]; [|done]. simpl in *.
      split; [|lia].
      apply Forall_cons. split; [apply from_split_split_first|].
      apply Forall_cons. split; [apply from_split_split_second|].
      apply Forall_nil_2.
    + rewrite (existing_splits_all _ Hall) in Hcap. unfold MAX_SPLITS in Hcap.
      split; [|lia].
      apply Forall_app. split; [by apply Forall_take|].
      apply Forall_cons. split; [apply from_split_split_first|].
      apply Forall_cons. split; [apply from_split_split_second|].
      by apply Forall_drop.
Qed.

Lemma rtc_state_step_inv (du : Z) (b : float) (st st' : RoundState) :
  rtc (state_step du) st st' →
  Forall (hand_inv b) (player_hands st) ∧ split_marks (player_hands st) →
  Forall (hand_inv b) (player_hands st') ∧ split_marks (player_hands st').
Proof.
  induction 1 as [|st st1 st2 Hstep _ IH]; [done|].
  intros [Hall Hmarks]. apply IH. split.
  - by eapply state_step_hand_inv.
  - by eapply state_step_split_marks.
Qed.

Lemma dealt_state_inv (rest : list Z) (p1 p2 d1 d2 : Z) (b : float)
    (log : bool) :
  Forall (hand_inv b) (player_hands (dealt_state rest p1 p2 d1 d2 b log))
  ∧ split_marks (player_hands (dealt_state rest p1 p2 d1 d2 b log)).
Proof.
  split.
  - apply Forall_cons. split; [|apply Forall_nil_2].
    unfold hand_inv. simpl. repeat split; try done. by left.
  - left. by eexists.
Qed.

(** The hands of a returned round before their results were set, in the
    order of the round. *)
Lemma play_round_hands {PS : Type} (shoe : list Z) (policy : PolicyFunc PS)
    (ps ps' : PS) (base_bet : float) (log : bool) (st : RoundState) :
  play_round shoe policy ps base_bet log = Ok (st, ps') →
  ∃ hands,
    Forall (hand_inv base_bet) hands ∧ split_marks hands
    ∧ Forall2 same_but_result hands (player_hands st).
Proof.
  intros Hround.
  destruct (play_round_inv _ _ _ _ _ _ _ Hround)
    as (rest & p1 & p2 & d1 & d2 & -> & Hcases).
  destruct (dealt_state_inv rest p1 p2 d1 d2 base_bet log) as [Hall Hmarks].
  destruct Hcases as [(_ & _ & r & _ & ->)
                     |(_ & st1 & st2 & Hsteps & Hdealer & ->)].
  - exists [initial_hand p1 p2 base_bet]. do 2 (split; [done|]).
    simpl. constructor; [by eexists|constructor].
  - exists (player_hands st1).
    destruct (rtc_state_step_inv _ base_bet _ _ Hsteps (conj Hall Hmarks)).
    do 2 (split; [done|]).
    apply dealer_phase_cards in Hdealer as (<- & _).
    apply settle_all_fields.
Qed.

(** X8. A round that [play_round] returns has one, two or three hands: the
    test against [MAX_SPLITS] counts the hands marked as split, two more
    with the first split, so that a third split is never carried out. *)
Theorem play_round_hand_count {PS : Type} (shoe : list Z)
    (policy : PolicyFunc PS) (ps ps' : PS) (base_bet : float) (log : bool)
    (st : RoundState) :
  play_round shoe policy ps base_bet log = Ok (st, ps') →
  (1 ≤ length (player_hands st) ≤ 3)%nat.
Proof.
  intros Hround.
  destruct (play_round_hands _ _ _ _ _ _ _ Hround)
    as (hands & _ & Hmarks & Hsame).
  rewrite <- (Forall2_length _ _ _ Hsame).
  destruct Hmarks as [(h & -> & _)|[_ ?]]; simpl; lia.
Qed.

Lemma play_round_hand_count_witness :
  (1 ≤ length (player_hands doubled_round) ≤ 3)%nat.
Proof.
  apply (play_round_hand_count [9; 7; 10; 6; 5] double_policy 0%nat 1%nat
           1%float false doubled_round).
  vm_compute. reflexivity.
Defined.

(** X9. In a round that [play_round] returns every hand holds at least two
    cards; its bet is the base bet, or twice the base bet on a finished hand
    of exactly three cards; and a split-ace hand is finished and holds two
    cards, the first an Ace. *)
Theorem play_round_hand_shape {PS : Type} (shoe : list Z)
    (policy : PolicyFunc PS) (ps ps' : PS) (base_bet : float) (log : bool)
    (st : RoundState) :
  play_round shoe policy ps base_bet log = Ok (st, ps') →
  Forall
    (λ h,
       (2 ≤ length (cards h))%nat
       ∧ (bet h = base_bet
          ∨ (bet h = (base_bet * 2)%float ∧ is_finished h = true
             ∧ length (cards h) = 3%nat))
       ∧ (is_split_ace h = true →
          is_finished h = true ∧ length (cards h) = 2%nat
          ∧ List.hd 0 (cards h) = 11))
    (player_hands st).
Proof.
  intros Hround.
  destruct (play_round_hands _ _ _ _ _ _ _ Hround)
    as (hands & Hall & _ & Hsame).
  induction Hsame as [|h h' hands hands' [r ->] _ IH]; [constructor|].
  inversion Hall as [|? ? (_ & Hlen & _ & Hace & Hbet) Hrest]; subst.
  constructor; [|by apply IH]. simpl. done.
Qed.

Lemma play_round_hand_shape_witness :
  Forall
    (λ h,
       (2 ≤ length (cards h))%nat
       ∧ (bet h = 1%float
          ∨ (bet h = (1 * 2)%float ∧ is_finished h = true
             ∧ length (cards h) = 3%nat))
       ∧ (is_split_ace h = true →
          is_finished h = true ∧ length (cards h) = 2%nat
          ∧ List.hd 0 (cards h) = 11))
    (player_hands doubled_round).
Proof.
  apply (play_round_hand_shape [9; 7; 10; 6; 5] double_policy 0%nat 1%nat
           1%float false doubled_round).
  vm_compute. reflexivity.
Defined.

(** ** Results, busts and the dealer of a returned round *)

Lemma two_cards_le_21 (a b : Z) :
  2 ≤ a ≤ 11 → 2 ≤ b ≤ 11 → fst (hand_value [a; b]) ≤ 21.
Proof.
  intros Ha Hb. rewrite (two_cards_total a b Ha Hb).
  destruct (Z.eqb_spec a 11), (Z.eqb_spec b 11); simpl; lia.
Qed.

Lemma is_blackjack_two (a b : Z) :
  is_blackjack [a; b] = (fst (hand_value [a; b]) =? 21).
Proof. reflexivity. Qed.

Lemma settle_with_inv (b : float) (h : HandState) (dealer : list Z) :
  hand_inv b h →
  snd (settle_hand_vs_dealer h dealer)
  = set_result h (Some (settlement_rule h dealer)).
Proof. intros (Hres & _). by rewrite (settle_unset h dealer Hres). Qed.

(** The immediate settlement of a natural is the settlement of
    [settle_hand_vs_dealer] when the four cards are between 2 and 11. *)
Lemma natural_result_rule (p1 p2 d1 d2 : Z) (b : float) :
  2 ≤ p1 ≤ 11 → 2 ≤ p2 ≤ 11 → 2 ≤ d1 ≤ 11 → 2 ≤ d2 ≤ 11 →
  is_blackjack [p1; p2] || is_blackjack [d1; d2] = true →
  (if is_blackjack [p1; p2] && negb (is_blackjack [d1; d2])
   then (b * BLACKJACK_PAYOUT)%float
   else if is_blackjack [d1; d2] && negb (is_blackjack [p1; p2])
   then (- b)%float
   else 0%float)
  = settlement_rule (initial_hand p1 p2 b) [d1; d2].
Proof.
  intros Hp1 Hp2 Hd1 Hd2 Hnat.
  pose proof (two_cards_le_21 p1 p2 Hp1 Hp2) as Hp.
  pose proof (two_cards_le_21 d1 d2 Hd1 Hd2) as Hd.
  unfold settlement_rule. cbn [is_busted initial_hand cards bet
                               is_blackjack_flag length].
  rewrite !is_blackjack_two in *.
  rewrite (bool_decide_eq_false_2 (fst (hand_value [d1; d2]) > 21)) by lia.
  destruct (Z.eqb_spec (fst (hand_value [p1; p2])) 21) as [Hp21|Hp21],
    (Z.eqb_spec (fst (hand_value [d1; d2])) 21) as [Hd21|Hd21];
    try discriminate; simpl.
  - rewrite (bool_decide_eq_true_2 (_ ∧ _)) by done. simpl.
    rewrite Hp21, Hd21.
    by rewrite !bool_decide_eq_false_2 by lia.
  - by rewrite (bool_decide_eq_false_2 (_ ∧ _)) by (intros [_ ?]; lia).
  - rewrite Hd21.
    rewrite (bool_decide_eq_false_2 (_ > 21)) by lia.
    by rewrite (bool_decide_eq_true_2 (_ < 21)) by lia.
Qed.

(** X10. In a round that [play_round] returns every hand has a result. It
    is the result of the settlement rule against the dealer's final cards
    whenever the action loop was played, and also after a natural when the
    shoe holds cards between 2 and 11 only: the immediate settlement agrees
    with [settle_hand_vs_dealer]. *)
Theorem play_round_results {PS : Type} (shoe : list Z) (policy : PolicyFunc PS)
    (ps ps' : PS) (base_bet : float) (log : bool) (st : RoundState) :
  play_round shoe policy ps base_bet log = Ok (st, ps') →
  Forall (λ h, is_Some (result h)) (player_hands st)
  ∧ (initial_blackjack st = false
     ∧ is_blackjack (take 2 (dealer_cards st)) = false
     ∨ Forall (λ c, 2 ≤ c ≤ 11) shoe →
     Forall (λ h, result h = Some (settlement_rule h (dealer_cards st)))
       (player_hands st)).
Proof.
  intros Hround.
  destruct (play_round_inv _ _ _ _ _ _ _ Hround)
    as (rest & p1 & p2 & d1 & d2 & -> & Hcases).
  destruct Hcases as [(Hnat & _ & r & Hr & ->)
                     |(Hnone & st1 & st2 & Hsteps & Hdealer & ->)].
  - split; [repeat constructor; by eexists|].
    intros [[Hp Hd]|Hrange].
    { simpl in Hp, Hd. rewrite Hp, Hd in Hnat. discriminate. }
    apply Forall_app in Hrange as [_ Hrange].
    inversion Hrange as [|? ? Hd2 Hr1]; subst.
    inversion Hr1 as [|? ? Hd1 Hr2]; subst.
    inversion Hr2 as [|? ? Hp2 Hr3]; subst.
    inversion Hr3 as [|? ? Hp1 _]; subst.
    constructor; [|constructor]. simpl. f_equal.
    by apply natural_result_rule.
  - destruct (dealt_state_inv rest p1 p2 d1 d2 base_bet log) as [Hall Hmarks].
    destruct (rtc_state_step_inv _ base_bet _ _ Hsteps (conj Hall Hmarks))
      as [Hinv _].
    apply dealer_phase_cards in Hdealer as (Hhands2 & _).
    rewrite <- Hhands2 in Hinv.
    assert (Hrule :
      Forall (λ h, result h = Some (settlement_rule h (dealer_cards st2)))
        (player_hands (settle_all st2))).
    { unfold settle_all. simpl. apply Forall_fmap.
      eapply Forall_impl; [exact Hinv|]. intros h Hh. simpl.
      by rewrite (settle_with_inv base_bet h _ Hh). }
    split.
    + eapply Forall_impl; [exact Hrule|]. intros h ->. by eexists.
    + intros _. exact Hrule.
Qed.

Lemma play_round_results_witness :
  Forall (λ h, is_Some (result h)) (player_hands doubled_round)
  ∧ (initial_blackjack doubled_round = false
     ∧ is_blackjack (take 2 (dealer_cards doubled_round)) = false
     ∨ Forall (λ c, 2 ≤ c ≤ 11) [9; 7; 10; 6; 5] →
     Forall
       (λ h, result h = Some (settlement_rule h (dealer_cards doubled_round)))
       (player_hands doubled_round)).
Proof.
  apply (play_round_results [9; 7; 10; 6; 5] double_policy 0%nat 1%nat
           1%float false doubled_round).
  vm_compute. reflexivity.
Defined.

Lemma state_step_over21 (du : Z) (st st' : RoundState) :
  state_step du st st' →
  Forall over21_inv (player_hands st) → Forall over21_inv (player_hands st').
Proof.
  intros [st0 i0 h0 answer _ _ _|st0 i h Hi Hunf Hover|st0 i h Hi Hunf
         |st0 i h shoe' h' Hi Hunf Hhit
         |st0 i h shoe' h' Hi Hunf Hlen Hdouble
         |st0 i h shoe' st1 Hi Hunf Hpair Hsplit] Hall.
  - done.
  - apply Forall_insert; [done|]. intros _. by left.
  - apply Forall_insert; [done|].
    exact (Forall_lookup_1 _ _ _ _ Hall Hi).
  - apply Forall_insert; [done|].
    pose proof (apply_action_hit_inv (shoe st0) h) as Hshape.
    rewrite Hhit in Hshape. destruct Hshape as (c & Hshoe & _).
    rewrite Hshoe, apply_action_hit_app in Hhit. injection Hhit as <-.
    unfold over21_inv.
    destruct (Z.ltb_spec 21 (fst (hand_value (cards h ++ [c])))); simpl.
    + intros _. by left.
    + lia.
  - apply Forall_insert; [done|].
    pose proof (apply_action_double_inv (shoe st0) h Hlen) as Hshape.
    rewrite Hdouble in Hshape. destruct Hshape as (c & Hshoe & _).
    rewrite Hshoe, (apply_action_double_app _ _ _ Hlen) in Hdouble.
    injection Hdouble as <-. unfold over21_inv. simpl.
    destruct (Z.ltb_spec 21 (fst (hand_value (cards h ++ [c])))).
    + intros _. by left.
    + lia.
  - pose proof (apply_action_split_inv (shoe st0) st0 i h Hi) as Hinv.
    rewrite Hsplit in Hinv.
    destruct Hinv as [[-> ->]|(c1 & c2 & Hshoe & _ & _ & ->)]; [done|].
    cbn [set_shoe set_player_hands player_hands].
    apply Forall_app. split; [by apply Forall_take|].
    apply Forall_cons. split; [intros _; by right|].
    apply Forall_cons. split; [intros _; by right|]. by apply Forall_drop.
Qed.

Lemma rtc_state_step_over21 (du : Z) (st st' : RoundState) :
  rtc (state_step du) st st' →
  Forall over21_inv (player_hands st) → Forall over21_inv (player_hands st').
Proof. induction 1; eauto using state_step_over21. Qed.

Lemma two_card_hand_le_21 (hand : list Z) :
  Forall (λ c, 2 ≤ c ≤ 11) hand → length hand = 2%nat →
  fst (hand_value hand) ≤ 21.
Proof.
  destruct hand as [|a [|b [|? ?]]]; try discriminate.
  intros Hrange _.
  inversion Hrange as [|? ? Ha Hrest]; subst.
  inversion Hrest as [|? ? Hb _]; subst.
  by apply two_cards_le_21.
Qed.

Lemma cards_of_elem (hands : list HandState) (h : HandState) (c : Z) :
  h ∈ hands → c ∈ cards h → c ∈ cards_of hands.
Proof.
  intros [i Hi]%list_elem_of_lookup_1 Hc.
  rewrite (cards_of_lookup _ _ _ Hi). apply elem_of_app. by left.
Qed.

Lemma same_but_result_Forall (P : HandState → Prop)
    (hands hands' : list HandState) :
  (∀ h r, P h → P (set_result h r)) →
  Forall2 same_but_result hands hands' → Forall P hands → Forall P hands'.
Proof.
  intros Hset. induction 1 as [|h h' hands hands' [r ->] _ IH];
    [constructor|].
  intros Hall. inversion Hall; subst. constructor; [by apply Hset|].
  by apply IH.
Qed.

(** X11. In a round that [play_round] returns a hand marked busted is
    finished, totals more than 21 and has lost its bet, whatever the dealer
    holds; and when the shoe holds cards between 2 and 11 only, every hand
    that totals more than 21 is marked busted. *)
Theorem play_round_busted {PS : Type} (shoe : list Z) (policy : PolicyFunc PS)
    (ps ps' : PS) (base_bet : float) (log : bool) (st : RoundState) :
  play_round shoe policy ps base_bet log = Ok (st, ps') →
  Forall
    (λ h, is_busted h = true →
          is_finished h = true ∧ 21 < fst (hand_value (cards h))
          ∧ result h = Some (- bet h)%float)
    (player_hands st)
  ∧ (Forall (λ c, 2 ≤ c ≤ 11) shoe →
     Forall (λ h, 21 < fst (hand_value (cards h)) → is_busted h = true)
       (player_hands st)).
Proof.
  intros Hround.
  destruct (play_round_cards_in_play _ _ _ _ _ _ _ Hround) as (Hplay & _).
  destruct (play_round_inv _ _ _ _ _ _ _ Hround)
    as (rest & p1 & p2 & d1 & d2 & Hdeal & Hcases).
  assert (Hpre : ∃ hands,
    Forall (hand_inv base_bet) hands ∧ Forall over21_inv hands
    ∧ (Forall (λ h, is_busted h = false) hands
       ∨ player_hands st
         = (λ h, snd (settle_hand_vs_dealer h (dealer_cards st))) <$> hands)
    ∧ Forall2 same_but_result hands (player_hands st)).
  { destruct (dealt_state_inv rest p1 p2 d1 d2 base_bet log) as [Hall Hmarks].
    assert (Hover : Forall over21_inv
                      (player_hands (dealt_state rest p1 p2 d1 d2 base_bet log))).
    { apply Forall_cons. split; [intros _; by right|apply Forall_nil_2]. }
    destruct Hcases as [(_ & _ & r & _ & ->)
                       |(_ & st1 & st2 & Hsteps & Hdealer & ->)].
    - exists [initial_hand p1 p2 base_bet].
      do 2 (split; [done|]).
      split; [left; apply Forall_cons; split; [done|apply Forall_nil_2]|].
      simpl. constructor; [by eexists|constructor].
    - exists (player_hands st1).
      destruct (rtc_state_step_inv _ base_bet _ _ Hsteps (conj Hall Hmarks)).
      split; [done|]. split; [by eapply rtc_state_step_over21|].
      apply dealer_phase_cards in Hdealer as (<- & _).
      split; [by right|]. apply settle_all_fields. }
  destruct Hpre as (hands & Hinv & Hover & Hsettled & Hsame).
  split.
  - destruct Hsettled as [Hnone|Heq].
    + eapply Forall_impl.
      * apply (same_but_result_Forall (λ h, is_busted h = false) hands);
          done.
      * simpl. congruence.
    + rewrite Heq. apply Forall_fmap.
      eapply Forall_impl; [exact Hinv|]. intros h Hh. simpl.
      rewrite (settle_with_inv base_bet h _ Hh). simpl.
      destruct Hh as (_ & _ & Hbust & _). intros Hb.
      destruct (Hbust Hb) as [? ?]. repeat split; try done.
      unfold settlement_rule. by rewrite Hb.
  - intros Hrange.
    assert (Hcards : Forall (λ c, 2 ≤ c ≤ 11) (cards_of (player_hands st))).
    { rewrite <- Hplay in Hrange. unfold cards_in_play in Hrange.
      apply Forall_app in Hrange as [_ Hrange].
      by apply Forall_app in Hrange as [? _]. }
    apply Forall_forall. intros h' Hh' Hbig.
    destruct (list_elem_of_lookup_1 _ _ Hh') as [j Hj].
    destruct (Forall2_lookup_r _ _ _ _ _ Hsame Hj) as (h & Hjh & r & ->).
    simpl in *.
    assert (Hrange_h : Forall (λ c, 2 ≤ c ≤ 11) (cards h)).
    { apply Forall_forall. intros c Hc.
      rewrite Forall_forall in Hcards. apply Hcards.
      by apply (cards_of_elem _ _ _ Hh'). }
    destruct (Forall_lookup_1 _ _ _ _ Hover Hjh Hbig) as [?|Htwo]; [done|].
    pose proof (two_card_hand_le_21 _ Hrange_h Htwo). lia.
Qed.

Lemma play_round_busted_witness :
  Forall
    (λ h, is_busted h = true →
          is_finished h = true ∧ 21 < fst (hand_value (cards h))
          ∧ result h = Some (- bet h)%float)
    (player_hands doubled_round)
  ∧ (Forall (λ c, 2 ≤ c ≤ 11) [9; 7; 10; 6; 5] →
     Forall (λ h, 21 < fst (hand_value (cards h)) → is_busted h = true)
       (player_hands doubled_round)).
Proof.
  apply (play_round_busted [9; 7; 10; 6; 5] double_policy 0%nat 1%nat
           1%float false doubled_round).
  vm_compute. reflexivity.
Defined.

Lemma existsb_not_busted (hands : list HandState) :
  existsb (λ h, negb (is_busted h)) hands = true
  ↔ Exists (λ h, is_busted h = false) hands.
Proof.
  rewrite existsb_exists, Exists_exists. split.
  - intros (h & Hin & Hb). exists h. split; [by apply list_elem_of_In|].
    by destruct (is_busted h).
  - intros (h & Hin & Hb). exists h. split; [by apply list_elem_of_In|].
    by rewrite Hb.
Qed.

Lemma same_but_result_busted (hands hands' : list HandState) :
  Forall2 same_but_result hands hands' →
  Exists (λ h, is_busted h = false) hands'
  ↔ Exists (λ h, is_busted h = false) hands.
Proof.
  induction 1 as [|h h' hands hands' [r ->] _ IH].
  - split; intros H; inversion H.
  - rewrite !Exists_cons, IH. done.
Qed.

(** X12. The dealer of a round that [play_round] returns holds the two
    cards he was dealt followed by the cards he drew. He drew none when the
    round was settled on a natural or no hand is left unbusted; otherwise he
    played, and his total is at least 17. *)
Theorem play_round_dealer {PS : Type} (rest : list Z) (p1 p2 d1 d2 : Z)
    (policy : PolicyFunc PS) (ps ps' : PS) (base_bet : float) (log : bool)
    (st : RoundState) :
  play_round (rest ++ [d2; d1; p2; p1]) policy ps base_bet log
  = Ok (st, ps') →
  ∃ drawn,
    dealer_cards st = [d1; d2] ++ drawn
    ∧ (is_blackjack [p1; p2] || is_blackjack [d1; d2] = true → drawn = [])
    ∧ (Forall (λ h, is_busted h = true) (player_hands st) → drawn = [])
    ∧ (is_blackjack [p1; p2] || is_blackjack [d1; d2] = false →
       Exists (λ h, is_busted h = false) (player_hands st) →
       17 ≤ fst (hand_value (dealer_cards st))).
Proof.
  intros Hround.
  destruct (play_round_inv _ _ _ _ _ _ _ Hround)
    as (rest' & p1' & p2' & d1' & d2' & Hdeal & Hcases).
  apply app_inj_2 in Hdeal as [<- [= <- <- <- <-]]; [|done].
  destruct Hcases as [(Hnat & _ & r & _ & ->)
                     |(Hnone & st1 & st2 & Hsteps & Hdealer & ->)].
  - exists []. repeat split; try done. congruence.
  - apply rtc_state_step_cards in Hsteps as (_ & Hdealer1 & _).
    apply dealer_phase_cards in Hdealer
      as (Hhands2 & _ & drawn & _ & Hdealer2 & Hskip & Hplay).
    destruct (settle_all_fields st2) as (_ & Hdealer3 & _ & Hsame).
    rewrite Hhands2 in Hsame.
    exists drawn. rewrite Hdealer3, Hdealer2, Hdealer1.
    split; [done|]. split; [congruence|]. split.
    + intros Hall. apply Hskip.
      destruct (existsb _ (player_hands st1)) eqn:Hex; [|done].
      apply existsb_not_busted, (same_but_result_busted _ _ Hsame) in Hex.
      apply Exists_exists in Hex as (h & Hin & Hb).
      rewrite Forall_forall in Hall. rewrite (Hall h Hin) in Hb. discriminate.
    + intros _ Hex. rewrite <- Hdealer1, <- Hdealer2. apply Hplay.
      by apply existsb_not_busted, (same_but_result_busted _ _ Hsame).
Qed.

Lemma play_round_dealer_witness :
  ∃ drawn,
    dealer_cards doubled_round = [10; 7] ++ drawn
    ∧ (is_blackjack [5; 6] || is_blackjack [10; 7] = true → drawn = [])
    ∧ (Forall (λ h, is_busted h = true) (player_hands doubled_round) →
       drawn = [])
    ∧ (is_blackjack [5; 6] || is_blackjack [10; 7] = false →
       Exists (λ h, is_busted h = false) (player_hands doubled_round) →
       17 ≤ fst (hand_value (dealer_cards doubled_round))).
Proof.
  apply (play_round_dealer [9] 5 6 10 7 double_policy 0%nat 1%nat 1%float
           false doubled_round).
  vm_compute. reflexivity.
Defined.

(** ** The step log *)









(** ** Logging changes nothing but the log *)

Lemma erase_log_step (log : bool) (st : RoundState) (e : Step) :
  erase_logs (log_step log st e) = erase_logs st.
Proof. by destruct log. Qed.

Lemma erase_set_hand (log : bool) (st : RoundState) (e : Step)
    (shoe' : list Z) (i : nat) (h : HandState) :
  erase_logs (set_hand (set_shoe (log_step log st e) shoe') i h)
  = set_hand (set_shoe (erase_logs st) shoe') i h.
Proof. by destruct log. Qed.

Lemma erase_set_hand_same (log : bool) (st : RoundState) (e : Step)
    (i : nat) (h : HandState) :
  erase_logs (set_hand (log_step log st e) i h)
  = set_hand (erase_logs st) i h.
Proof. by destruct log. Qed.

Lemma apply_action_split_erase (shoe : list Z) (st : RoundState) (i : nat) :
  apply_action_split shoe (erase_logs st) i
  = match apply_action_split shoe st i with
    | Ok (shoe', st') => Ok (shoe', erase_logs st')
    | Raise e => Raise e
    end.
Proof.
  unfold apply_action_split, mbind, outcome_bind.
  change (player_hands (erase_logs st)) with (player_hands st).
  destruct (player_hands st !! i) as [hand|]; [|done].
  destruct (can_split (cards hand)); [|done]. cbn [negb].
  destruct (Nat.leb MAX_SPLITS (existing_splits (player_hands st))); [done|].
  destruct (draw_card shoe) as [[c1 shoe1]|e]; [|done].
  destruct (draw_card shoe1) as [[c2 shoe2]|e]; [|done].
  cbv zeta. by destruct (List.hd 0 (cards hand) =? 11).
Qed.

Section Erase.
Context {PS : Type} (policy : PolicyFunc PS) (log : bool) (dealer_up : Z).

Lemma hand_loop_erase (fuel : nat) :
  ∀ (i : nat) (st : RoundState) (ps : PS),
    hand_loop policy false dealer_up fuel i (erase_logs st) ps
    = match hand_loop policy log dealer_up fuel i st ps with
      | Ok (st', ps') => Ok (erase_logs st', ps')
      | Raise e => Raise e
      end.
Proof.
  induction fuel as [|fuel IH]; intros i st ps; [done|].
  cbn [hand_loop].
  change (player_hands (erase_logs st)) with (player_hands st).
  destruct (player_hands st !! i) as [hand|]; [|done].
  destruct (is_finished hand); [done|].
  destruct (hand_value (cards hand)) as [total is_soft].
  destruct (21 <? total); [done|].
  destruct (policy ps (cards hand) dealer_up _) as [answer ps1].
  cbv zeta. cbn [log_step].
  change (shoe (erase_logs st)) with (shoe st).
  match goal with |- context [log_step log st ?e] =>
    pose proof (erase_set_hand log st e) as Hboth;
    pose proof (erase_set_hand_same log st e) as Hhand;
    pose proof (erase_log_step log st e) as Herase;
    destruct (log_step_fields log st e) as (_ & Hshoe1 & _);
    set (st1 := log_step log st e) in *
  end.
  rewrite Hshoe1.
  assert (Hstand :
    hand_loop policy false dealer_up fuel i
      (set_hand (erase_logs st) i (apply_action_stand hand)) ps1
    = match hand_loop policy log dealer_up fuel i
              (set_hand st1 i (apply_action_stand hand)) ps1 with
      | Ok (st', ps') => Ok (erase_logs st', ps')
      | Raise e => Raise e
      end).
  { rewrite <- IH. by rewrite Hhand. }
  assert (Hhit :
    ('(shoe', hand') ← apply_action_hit (shoe st) hand;
     hand_loop policy false dealer_up fuel i
       (set_hand (set_shoe (erase_logs st) shoe') i hand') ps1)
    = match ('(shoe', hand') ← apply_action_hit (shoe st) hand;
             hand_loop policy log dealer_up fuel i
               (set_hand (set_shoe st1 shoe') i hand') ps1) with
      | Ok (st', ps') => Ok (erase_logs st', ps')
      | Raise e => Raise e
      end).
  { destruct (apply_action_hit (shoe st) hand) as [[shoe' hand']|e];
      [|done]. simpl. rewrite <- IH. by rewrite Hboth. }
  destruct (String.eqb (upper answer) "H").
  { destruct (is_split_ace hand); [exact Hstand|exact Hhit]. }
  destruct (String.eqb (upper answer) "S"); [exact Hstand|].
  destruct (String.eqb (upper answer) "D").
  { destruct (Nat.eqb (length (cards hand)) 2); [|exact Hhit].
    destruct (apply_action_double (shoe st) hand) as [[shoe' hand']|e];
      [|done]. simpl. rewrite <- IH. by rewrite Hboth. }
  destruct (String.eqb (upper answer) "P").
  { destruct (can_split (cards hand)); [|exact Hhit].
    rewrite <- Herase, apply_action_split_erase.
    by destruct (apply_action_split (shoe st) st1 i) as [[shoe' st2]|e]. }
  destruct (String.eqb (upper answer) "R"); exact Hstand.
Qed.

Lemma hands_loop_erase (fuel : nat) :
  ∀ (i : nat) (st : RoundState) (ps : PS),
    hands_loop policy false dealer_up fuel i (erase_logs st) ps
    = match hands_loop policy log dealer_up fuel i st ps with
      | Ok (st', ps') => Ok (erase_logs st', ps')
      | Raise e => Raise e
      end.
Proof.
  induction fuel as [|fuel IH]; intros i st ps; [done|].
  cbn [hands_loop].
  change (player_hands (erase_logs st)) with (player_hands st).
  destruct (Nat.ltb i (length (player_hands st))); [|done].
  destruct (player_hands st !! i) as [hand|]; [|done].
  destruct (is_finished hand); [apply IH|].
  change (hand_fuel (erase_logs st)) with (hand_fuel st).
  rewrite hand_loop_erase.
  destruct (hand_loop policy log dealer_up (hand_fuel st) i st ps)
    as [[st1 ps1]|e]; [|done].
  simpl. apply IH.
Qed.
End Erase.

Lemma dealer_phase_erase (st : RoundState) :
  dealer_phase (erase_logs st)
  = match dealer_phase st with
    | Ok st' => Ok (erase_logs st')
    | Raise e => Raise e
    end.
Proof.
  unfold dealer_phase.
  change (player_hands (erase_logs st)) with (player_hands st).
  change (shoe (erase_logs st)) with (shoe st).
  change (dealer_cards (erase_logs st)) with (dealer_cards st).
  destruct (existsb _ (player_hands st)); [|done].
  by destruct (play_dealer (shoe st) (dealer_cards st)) as [[shoe' dealer']|e].
Qed.

(** X14. Asking for the log changes nothing else: a round played with
    [log] set returns what the round played without it returns, the same
    hands, dealer's cards, shoe and policy state, plus the log; and it
    raises when the other raises. *)
Theorem play_round_log_irrelevant {PS : Type} (shoe : list Z)
    (policy : PolicyFunc PS) (ps : PS) (base_bet : float) :
  play_round shoe policy ps base_bet false
  = match play_round shoe policy ps base_bet true with
    | Ok (st, ps') => Ok (erase_logs st, ps')
    | Raise e => Raise e
    end.
Proof.
  unfold play_round, mbind, outcome_bind.
  destruct (draw_card shoe) as [[p1 s1]|e]; [|done].
  destruct (draw_card s1) as [[p2 s2]|e]; [|done].
  destruct (draw_card s2) as [[d1 s3]|e]; [|done].
  destruct (draw_card s3) as [[d2 rest]|e]; [|done].
  cbv zeta. cbn [is_blackjack_flag].
  destruct (is_blackjack [p1; p2] || is_blackjack [d1; d2]); [done|].
  fold (initial_hand p1 p2 base_bet).
  fold (dealt_state rest p1 p2 d1 d2 base_bet false).
  fold (dealt_state rest p1 p2 d1 d2 base_bet true).
  change (dealt_state rest p1 p2 d1 d2 base_bet false)
    with (erase_logs (dealt_state rest p1 p2 d1 d2 base_bet true)).
  change (hands_fuel (erase_logs (dealt_state rest p1 p2 d1 d2 base_bet true)))
    with (hands_fuel (dealt_state rest p1 p2 d1 d2 base_bet true)).
  rewrite (hands_loop_erase policy true).
  destruct (hands_loop policy true d1 _ 0%nat _ ps) as [[st1 ps1]|e];
    [|done].
  rewrite dealer_phase_erase.
  by destruct (dealer_phase st1) as [st2|e].
Qed.

(** ** The table policy *)

(** X15. Called with a context whose split flag is the one of the cards,
    as [play_round] builds it, [policy_from_tables] answers without
    raising, and whatever the tables hold it answers Double only when
    the context allows a double and Split only when it allows a split. *)
Theorem policy_from_tables_safe (NORMAL_POLICY SPLIT_POLICY : gmap string PolicyEntry)
    (player_cards : list Z) (dealer_up : Z) (ctx : Ctx) :
  ctx_can_split ctx = can_split player_cards →
  ∃ a,
    policy_from_tables NORMAL_POLICY SPLIT_POLICY player_cards dealer_up ctx
    = Ok a
    ∧ (a = "D"%string → ctx_can_double ctx = true)
    ∧ (a = "P"%string → ctx_can_split ctx = true).
Proof.
  intros Hctx. unfold policy_from_tables, mbind, outcome_bind. cbv zeta.
  assert (Hsplit : ∃ b,
    (if ctx_can_split ctx then
       match player_cards with
       | [] => Raise IndexError
       | pair_rank :: _ =>
         match SPLIT_POLICY !! split_key pair_rank dealer_up with
         | Some sp => Ok (String.eqb (action sp) "P")
         | None => Ok false
         end
       end
     else Ok false) = Ok b ∧ (b = true → ctx_can_split ctx = true)).
  { destruct (ctx_can_split ctx); [|by exists false].
    destruct player_cards as [|pair_rank ?]; [discriminate|].
    destruct (SPLIT_POLICY !! _); by eexists. }
  destruct Hsplit as (b & -> & Hb).
  destruct b.
  { exists "P"%string. split; [done|]. split; [discriminate|]. auto. }
  destruct (NORMAL_POLICY !! _) as [np|].
  - destruct (String.eqb_spec (action np) "D") as [HD|HD];
      destruct (ctx_can_double ctx) eqn:Hdbl; simpl.
    + exists (action np). rewrite HD. repeat split; done.
    + exists "H"%string. repeat split; discriminate.
    + destruct (String.eqb_spec (action np) "P") as [HP|HP];
        destruct (ctx_can_split ctx) eqn:Hspl; simpl;
        eexists; (split; [reflexivity|]); split; intros; congruence.
    + destruct (String.eqb_spec (action np) "P") as [HP|HP];
        destruct (ctx_can_split ctx) eqn:Hspl; simpl;
        eexists; (split; [reflexivity|]); split; intros; congruence.
  - destruct (17 <=? player_total ctx);
      [exists "S"%string; repeat split; discriminate|].
    destruct (player_total ctx <=? 8);
      [exists "H"%string; repeat split; discriminate|].
    destruct ((9 <=? player_total ctx) && (player_total ctx <=? 11)); simpl.
    + destruct (ctx_can_double ctx); eexists;
        (split; [reflexivity|]); split; intros; congruence.
    + exists "H"%string. repeat split; discriminate.
Qed.

Lemma policy_from_tables_safe_witness :
  ∃ a,
    policy_from_tables
      {[normal_key 11 false 6 := mkPolicyEntry "D" 0.5%float]} ∅
      [5; 6; 0] 6 (mkCtx 11 false false false 0 1)
    = Ok a
    ∧ (a = "D"%string
       → ctx_can_double (mkCtx 11 false false false 0 1) = true)
    ∧ (a = "P"%string
       → ctx_can_split (mkCtx 11 false false false 0 1) = true).
Proof.
  apply (policy_from_tables_safe
           {[normal_key 11 false 6 := mkPolicyEntry "D" 0.5%float]} ∅
           [5; 6; 0] 6 (mkCtx 11 false false false 0 1)).
  reflexivity.
Defined.

(** X16. A state that neither table knows is answered from the total alone:
    Stand from 17 up, Double on 9, 10 and 11 when a double is allowed, Hit
    otherwise; never Split or Surrender. *)
Theorem policy_from_tables_fallback (NORMAL_POLICY SPLIT_POLICY : gmap string PolicyEntry)
    (player_cards : list Z) (dealer_up : Z) (ctx : Ctx) :
  ctx_can_split ctx = can_split player_cards →
  SPLIT_POLICY !! split_key (List.hd 0 player_cards) dealer_up = None →
  NORMAL_POLICY
  !! normal_key (player_total ctx) (player_soft ctx) dealer_up = None →
  policy_from_tables NORMAL_POLICY SPLIT_POLICY player_cards dealer_up ctx
  = Ok (if bool_decide (17 ≤ player_total ctx) then "S"%string
        else if bool_decide (9 ≤ player_total ctx ≤ 11) && ctx_can_double ctx
        then "D"%string else "H"%string).
Proof.
  intros Hctx Hsp Hnp. unfold policy_from_tables, mbind, outcome_bind.
  cbv zeta. rewrite Hnp.
  assert (Hsplit :
    (if ctx_can_split ctx then
       match player_cards with
       | [] => Raise IndexError
       | pair_rank :: _ =>
         match SPLIT_POLICY !! split_key pair_rank dealer_up with
         | Some sp => Ok (String.eqb (action sp) "P")
         | None => Ok false
         end
       end
     else Ok false) = Ok false).
  { destruct (ctx_can_split ctx); [|done].
    destruct player_cards as [|pair_rank ?]; [discriminate|].
    simpl in Hsp. by rewrite Hsp. }
  rewrite Hsplit.
  destruct (Z.leb_spec 17 (player_total ctx)).
  { by rewrite bool_decide_eq_true_2 by lia. }
  rewrite (bool_decide_eq_false_2 (17 ≤ _)) by lia.
  destruct (Z.leb_spec (player_total ctx) 8).
  { by rewrite bool_decide_eq_false_2 by lia. }
  destruct (Z.leb_spec 9 (player_total ctx)),
    (Z.leb_spec (player_total ctx) 11), (ctx_can_double ctx); simpl;
    first [ by rewrite bool_decide_eq_true_2 by lia
          | by rewrite bool_decide_eq_false_2 by lia ].
Qed.

Lemma policy_from_tables_fallback_witness :
  policy_from_tables ∅ ∅ [5; 5] 6 (mkCtx 10 false true true 0 1)
  = Ok (if bool_decide (17 ≤ player_total (mkCtx 10 false true true 0 1))
        then "S"%string
        else if bool_decide
                  (9 ≤ player_total (mkCtx 10 false true true 0 1) ≤ 11)
                && ctx_can_double (mkCtx 10 false true true 0 1)
        then "D"%string else "H"%string).
Proof.
  apply (policy_from_tables_fallback ∅ ∅ [5; 5] 6
           (mkCtx 10 false true true 0 1)); reflexivity.
Defined.

(** ** Hand features outside the engine *)

Lemma features_loop_spec (hand values : list Z) (ace_count : nat) :
  features_loop hand values ace_count
  = (values ++ hand, (ace_count + count 11 hand)%nat).
Proof.
  revert values ace_count.
  induction hand as [|v hand IH]; intros values ace_count; simpl.
  - rewrite app_nil_r. f_equal. unfold count. simpl. lia.
  - rewrite count_cons.
    destruct (Z.eqb_spec v 11) as [->|Hne].
    + rewrite IH, <- app_assoc. simpl. f_equal. lia.
    + rewrite IH, <- app_assoc.
      destruct (Z.eqb_spec 11 v); [congruence|]. simpl. f_equal; lia.
Qed.

(** X17. On a hand that is not empty, [hand_features] gives the total and
    the softness of the engine's [hand_value] and the pair test of its
    [can_split], with the rank of the pair; on the empty hand it gives no
    total, no softness and no pair. *)
Theorem hand_features_engine (hand : list Z) :
  hand_features hand
  = match hand with
    | [] => (None, None, false, None)
    | c :: _ =>
      (Some (fst (hand_value hand)), Some (snd (hand_value hand)),
       can_split hand, if can_split hand then Some c else None)
    end.
Proof.
  destruct hand as [|c hand]; [reflexivity|].
  unfold hand_features. cbn [length Nat.eqb].
  rewrite features_loop_spec. cbn [app Nat.add].
  unfold hand_value.
  destruct (downgrade (sum (c :: hand)) (count 11 (c :: hand)))
    as [total aces]. cbn [fst snd].
  assert (Hpair :
    Nat.eqb (length (c :: hand)) 2
    && (match c :: hand with a :: b :: _ => a =? b | _ => false end)
    = can_split (c :: hand)).
  { by destruct hand as [|b [|? ?]]. }
  rewrite Hpair. by destruct (can_split (c :: hand)).
Qed.

Lemma count_loop_spec (hand : list Z) (total : Z) (aces : nat) :
  count_loop hand total aces
  = (total + sum hand, (aces + count 11 hand)%nat).
Proof.
  revert total aces.
  induction hand as [|card hand IH]; intros total aces.
  - unfold sum, count. simpl. f_equal; lia.
  - rewrite count_cons. unfold sum in *. cbn [foldr count_loop].
    destruct (Z.eqb_spec 11 card), (Z.eqb_spec card 11);
      try congruence; subst; rewrite IH; f_equal; lia.
Qed.

Lemma downgrade_soft_spec (total : Z) (aces : nat) (soft : bool) :
  ∃ k : nat,
    (k ≤ aces)%nat
    ∧ downgrade_soft total aces soft
      = (total - 10 * Z.of_nat k, (aces - k)%nat, soft || Nat.ltb 0 k)
    ∧ downgrade total aces = (total - 10 * Z.of_nat k, (aces - k)%nat)
    ∧ ((k < aces)%nat → total - 10 * Z.of_nat k ≤ 21).
Proof.
  assert (Hpair : ∀ (a a' : Z) (b b' : nat), a = a' → b = b' → (a, b) = (a', b'))
    by (intros; congruence).
  revert total soft. induction aces as [|n IH]; intros total soft.
  - exists 0%nat. simpl. rewrite orb_false_r.
    split; [lia|]. split; [|split; [|lia]].
    + apply pair_equal_spec. split; [|done]. apply Hpair; lia.
    + apply Hpair; lia.
  - cbn [downgrade_soft downgrade].
    destruct (Z.ltb_spec 21 total) as [Hgt|Hle].
    + destruct (IH (total - 10) true) as (k & Hk & Heq & Heq' & Hstop).
      exists (S k). rewrite Heq, Heq'. rewrite orb_true_r.
      split; [lia|]. split; [|split; [|lia]].
      * apply pair_equal_spec. split; [|done]. apply Hpair; lia.
      * apply Hpair; lia.
    + exists 0%nat. rewrite orb_false_r.
      split; [lia|]. split; [|split; [|lia]].
      * apply pair_equal_spec. split; [|done]. apply Hpair; lia.
      * apply Hpair; lia.
Qed.

Lemma count_pos_elem (c : Z) (hand : list Z) :
  (0 < count c hand)%nat ↔ c ∈ hand.
Proof.
  induction hand as [|x hand IH].
  - split; [unfold count; simpl; lia|intros H; inversion H].
  - rewrite count_cons, elem_of_cons.
    destruct (Z.eqb_spec c x) as [->|Hne].
    + split; [by left|lia].
    + rewrite <- IH. split; [intros; right; lia|intros [?|?]; [done|lia]].
Qed.

(** X18. [hand_value_and_soft] of [blackjack_step1.py] computes the total
    of the engine's [hand_value], but its soft flag is set for every hand
    that holds an Ace, also when every Ace counts as 1: it takes [11; 6; 10]
    for soft, the engine for hard. *)
Theorem hand_value_and_soft_engine (hand : list Z) :
  hand_value_and_soft hand
  = (fst (hand_value hand), bool_decide (11 ∈ hand))
  ∧ hand_value_and_soft [11; 6; 10] = (17, true)
  ∧ hand_value [11; 6; 10] = (17, false).
Proof.
  split; [|split; reflexivity].
  unfold hand_value_and_soft, hand_value.
  rewrite count_loop_spec. rewrite Z.add_0_l, Nat.add_0_l. cbv zeta.
  destruct (downgrade_soft_spec (sum hand) (count 11 hand) false)
    as (k & Hk & -> & -> & Hstop).
  cbn [fst orb]. f_equal.
  destruct (decide (11 ∈ hand)) as [Hace|Hnone].
  - rewrite bool_decide_eq_true_2 by done.
    apply count_pos_elem in Hace.
    destruct (Nat.ltb_spec 0 (count 11 hand - k)); simpl.
    + destruct (Z.leb_spec (sum hand - 10 * Z.of_nat k) 21); [done|lia].
    + destruct (Nat.ltb_spec 0 k); [done|lia].
  - rewrite bool_decide_eq_false_2 by done.
    assert (count 11 hand = 0)%nat as Hzero.
    { destruct (count 11 hand) eqn:Hc; [done|].
      exfalso. apply Hnone, count_pos_elem. lia. }
    rewrite Hzero in *. assert (k = 0)%nat as -> by lia. reflexivity.
Qed.

(** ** Errors of a round *)

(** X19. [play_round] raises nothing but the error of the empty shoe, and
    it raises it whenever the shoe holds fewer than the four cards of the
    deal. *)
Theorem play_round_errors {PS : Type} (shoe : list Z) (policy : PolicyFunc PS)
    (ps : PS) (base_bet : float) (log : bool) :
  (∀ e, play_round shoe policy ps base_bet log = Raise e → e = ShoeEmpty)
  ∧ ((length shoe < 4)%nat →
     play_round shoe policy ps base_bet log = Raise ShoeEmpty).
Proof.
  split.
  - intros e Hraise.
    pose proof (play_round_post shoe policy ps base_bet log) as Hpost.
    by rewrite Hraise in Hpost.
  - intros Hshort.
    destruct shoe as [|a [|b [|c [|d ?]]]]; simpl in Hshort; try lia;
      reflexivity.
Qed.

(** ** The fallback of the command line *)

Lemma best_entry_cases (items : list (string * PolicyEntry)) (prefix : string)
    (best_action : option string) (best_er : float) :
  best_entry items prefix best_action best_er = (best_action, best_er)
  ∨ ∃ key e,
      (key, e) ∈ items ∧ String.prefix prefix key = true
      ∧ best_entry items prefix best_action best_er
        = (Some (action e), expected_reward e).
Proof.
  revert best_action best_er.
  induction items as [|[key val] items IH]; intros best_action best_er;
    [by left|].
  cbn [best_entry].
  destruct (String.prefix prefix key) eqn:Hprefix.
  2: { destruct (IH best_action best_er) as [?|(k & e & Hin & Hp & Heq)];
         [by left|].
       right. exists k, e. split; [by apply elem_of_cons; right|]. done. }
  cbv zeta. destruct (best_er <? expected_reward val)%float.
  - right.
    destruct (IH (Some (action val)) (expected_reward val))
      as [Heq|(k & e & Hin & Hp & Heq)].
    + exists key, val. split; [apply elem_of_cons; by left|]. done.
    + exists k, e. split; [by apply elem_of_cons; right|]. done.
  - destruct (IH best_action best_er) as [?|(k & e & Hin & Hp & Heq)];
      [by left|].
    right. exists k, e. split; [by apply elem_of_cons; right|]. done.
Qed.

Lemma best_entry_no_prefix (items : list (string * PolicyEntry))
    (prefix : string) (best_action : option string) (best_er : float) :
  Forall (λ item, String.prefix prefix item.1 = false) items →
  best_entry items prefix best_action best_er = (best_action, best_er).
Proof.
  induction 1 as [|[key val] items Hkey _ IH]; [done|].
  cbn [best_entry]. simpl in Hkey. by rewrite Hkey.
Qed.

(** X20. [smart_fallback] answers with the action and the expected reward
    of one entry of the table whose key starts with the prefix of the total
    and the softness, or else with the last resort, Hit below 12 and Stand
    from 12, at reward 0; it takes the last resort whenever no key of the
    table starts with the prefix, the empty table included. *)
Theorem smart_fallback_cases (NORMAL_POLICY : list (string * PolicyEntry))
    (player_value : Z) (player_soft : bool) :
  (smart_fallback NORMAL_POLICY player_value player_soft
   = (if player_value <? 12 then "H"%string else "S"%string, 0%float)
   ∨ ∃ key e,
       (key, e) ∈ NORMAL_POLICY
       ∧ String.prefix
           (pretty player_value +:+ "_" +:+ pretty (Z.b2z player_soft)
            +:+ "_") key = true
       ∧ smart_fallback NORMAL_POLICY player_value player_soft
         = (action e, expected_reward e))
  ∧ (Forall
       (λ item,
          String.prefix
            (pretty player_value +:+ "_" +:+ pretty (Z.b2z player_soft)
             +:+ "_") item.1 = false)
       NORMAL_POLICY →
     smart_fallback NORMAL_POLICY player_value player_soft
     = (if player_value <? 12 then "H"%string else "S"%string, 0%float)).
Proof.
  unfold smart_fallback. cbv zeta. split.
  - destruct (best_entry_cases NORMAL_POLICY
                (pretty player_value +:+ "_" +:+ pretty (Z.b2z player_soft)
                 +:+ "_") None (-1000000000)%float)
      as [-> |(key & e & Hin & Hp & ->)].
    + by left.
    + right. by exists key, e.
  - intros Hnone. by rewrite best_entry_no_prefix.
Qed.

Example smart_fallback_picks_best :
  smart_fallback
    [("16_0_10"%string, mkPolicyEntry "H" (-0.5)%float);
     ("16_0_6"%string, mkPolicyEntry "S" (-0.25)%float);
     ("16_1_6"%string, mkPolicyEntry "D" 0.5%float)]
    16 false
  = ("S"%string, (-0.25)%float).
Proof. reflexivity. Qed.
